(** * powerline-shell: the prompt renderer and its repository detectors

    A shallow embedding of [powerline-shell.py] (the interpreter named by
    its first line is python3, and that is the semantics followed here).

    - A Python [str] is a list of code points, so that [len] counts what
      Python counts.
    - Python integers are [Z].
    - [Powerline] instances live in a store indexed by reference; a
      [Segment] keeps the reference it was built with, as the class does.
    - Builders that start processes run in a state-and-exception monad;
      the outcome of every process start is given by an oracle of the
      surrounding system and every start is recorded in a log.
    - The interpreter is a 64-bit build with its limits as they are set
      by default: an index holds at most [2^63 - 1], [int()] converts at
      most 4300 digits, and whether a new string can be allocated is
      asked of the host. *)

From Stdlib Require Import ZArith NArith String Ascii Lia.
From stdpp Require Import base tactics option list numbers functions gmap.

(* ================================================================== *)
(** ** Python strings *)

Abbreviation str := (list N).

(** A literal of ASCII characters. *)
Definition u (s : string) : str := N_of_ascii <$> list_ascii_of_string s.
Arguments u s%_string.

Definition eqc (a b : N) : bool := N.eqb a b.

(** [a == b] on strings. *)
Fixpoint str_eqb (a b : str) : bool :=
  match a, b with
  | [], [] => true
  | x :: a', y :: b' => eqc x y && str_eqb a' b'
  | _, _ => false
  end.

(** [s.startswith(pre)] *)
Fixpoint startswith (pre s : str) : bool :=
  match pre, s with
  | [], _ => true
  | x :: pre', y :: s' => eqc x y && startswith pre' s'
  | _ :: _, [] => false
  end.

(** [s.find(sub)]: the lowest index where [sub] occurs, or [-1]. *)
Fixpoint find_from (sub s : str) (i : Z) : Z :=
  if startswith sub s then i
  else match s with
       | [] => (-1)%Z
       | _ :: s' => find_from sub s' (i + 1)%Z
       end.

Definition str_find (s sub : str) : Z := find_from sub s 0%Z.

(** [s.replace(old, new, 1)]: only the first occurrence is replaced. *)
Fixpoint str_replace1 (old new s : str) : str :=
  if startswith old s then new ++ drop (length old) s
  else match s with
       | [] => []
       | c :: s' => c :: str_replace1 old new s'
       end.

(** [s.split(sep)] for a separator of one character. *)
Fixpoint str_split (sep : N) (s : str) : list str :=
  match s with
  | [] => [[]]
  | c :: s' =>
      if eqc c sep then [] :: str_split sep s'
      else match str_split sep s' with
           | [] => [[c]]
           | w :: ws => (c :: w) :: ws
           end
  end.

(** [''.join(parts)] *)
Definition join (parts : list str) : str := concat parts.

(** [' %s ' % x] *)
Definition spaced (x : str) : str := u " " ++ x ++ u " ".

(** Whitespace of [bytes.strip()]: space, tab, newline, vertical tab,
    form feed and carriage return. *)
Definition ascii_space (c : N) : bool :=
  (eqc c 32 || ((9 <=? c) && (c <=? 13)))%N.

(** Whitespace of [str.strip()] and [str.rstrip()]. *)
Definition unicode_space (c : N) : bool :=
  (ascii_space c || ((28 <=? c) && (c <=? 31)) || eqc c 133 || eqc c 160
   || eqc c 5760 || ((8192 <=? c) && (c <=? 8202)) || eqc c 8232
   || eqc c 8233 || eqc c 8239 || eqc c 8287 || eqc c 12288)%N.

Fixpoint lstrip_with (sp : N -> bool) (s : str) : str :=
  match s with
  | c :: s' => if sp c then lstrip_with sp s' else s
  | [] => []
  end.

Definition rstrip_with (sp : N -> bool) (s : str) : str :=
  reverse (lstrip_with sp (reverse s)).

Definition strip_with (sp : N -> bool) (s : str) : str :=
  rstrip_with sp (lstrip_with sp s).

Definition bytes_strip : str -> str := strip_with ascii_space.
Definition str_strip : str -> str := strip_with unicode_space.
Definition str_rstrip : str -> str := rstrip_with unicode_space.

(** A slice [l[i:]] with a start that may be negative. *)
Definition slice_from {A} (l : list A) (i : Z) : list A :=
  if (i <? 0)%Z then drop (length l - Z.to_nat (- i)) l
  else drop (Z.to_nat i) l.

(** A slice [l[:j]] with a stop that may be negative. *)
Definition slice_to {A} (l : list A) (j : Z) : list A :=
  if (j <? 0)%Z then take (length l - Z.to_nat (- j)) l
  else take (Z.to_nat j) l.

(* ================================================================== *)
(** ** Exceptions and results *)

Inductive exn : Set :=
  | OSError | CalledProcessError | ValueError | KeyError
  | TypeError | IndexError | AttributeError | OverflowError | MemoryError.

Inductive result (A : Type) : Type :=
  | Ok (a : A)
  | Raise (e : exn).
Arguments Ok {A} a.
Arguments Raise {A} e.

(** The largest index of the interpreter, [sys.maxsize] of a 64-bit
    build. *)
Definition ssize_max : Z := 9223372036854775807.


(* ================================================================== *)
(** ** Decimal numbers: ["%d"] and [int()] *)

(** The digits of [n], most significant first, in front of [acc]. *)
Fixpoint dec_digits (fuel : nat) (n : N) (acc : str) : str :=
  match fuel with
  | O => acc
  | S f =>
      let acc' := (48 + n mod 10)%N :: acc in
      if (n <? 10)%N then acc' else dec_digits f (n / 10)%N acc'
  end.

Definition dec_N (n : N) : str := dec_digits (S (N.to_nat (N.log2 n))) n [].

(** ["%d" % z] *)
Definition dec (z : Z) : str :=
  if (z <? 0)%Z then 45%N :: dec_N (Z.to_N (- z)) else dec_N (Z.to_N z).

(** The decimal value of an ASCII digit. *)
Definition ascii_decimal (c : N) : option N :=
  if ((48 <=? c) && (c <=? 57))%N then Some (c - 48)%N else None.

(** The most digits [int()] converts from a text:
    [sys.int_info.default_max_str_digits]; the program leaves the limit
    of the interpreter as it is. *)
Definition max_str_digits : Z := 4300.

(** A value that reaches [int()]: argparse hands over the default (an
    integer) or the text of the option. *)
Inductive pyval : Type :=
  | VInt (z : Z)
  | VStr (s : str).

Section Decimal.
(** The interpreter's table of decimal digits (Unicode category Nd):
    the value of a code point that is one. *)
Variable decimal : N -> option N.

Definition isdigit (c : N) : bool := bool_decide (is_Some (decimal c)).

(** Whitespace that [int()] skips around the number. *)
Definition int_space (c : N) : bool :=
  ascii_space c || ((127 <=? c)%N && unicode_space c).

(** Digits with single underscores between them. *)
Fixpoint digits_value (acc : N) (after_digit : bool) (s : str) : option N :=
  match s with
  | [] => if after_digit then Some acc else None
  | c :: s' =>
      match decimal c with
      | Some d => digits_value (10 * acc + d)%N true s'
      | None =>
          if eqc c 95 && after_digit then digits_value acc false s'
          else None
      end
  end.

(** [int(s)]: a number of more than [max_str_digits] digits (the
    underscores are not counted) is refused like a text that is no
    number. *)
Definition int_of_str (s : str) : result Z :=
  let t := strip_with int_space s in
  let '(neg, body) :=
    match t with
    | c :: r =>
        if eqc c 45 then (true, r)
        else if eqc c 43 then (false, r)
        else (false, t)
    | [] => (false, t)
    end in
  match digits_value 0 false body with
  | Some n =>
      if (max_str_digits
          <? Z.of_nat (length (filter (fun c => isdigit c = true) body)))%Z
      then Raise ValueError
      else Ok (if neg then - Z.of_N n else Z.of_N n)%Z
  | None => Raise ValueError
  end.

(** [int(v)] *)
Definition py_int (v : pyval) : result Z :=
  match v with
  | VInt z => Ok z
  | VStr s => int_of_str s
  end.
End Decimal.

(* ================================================================== *)
(** ** Dictionaries and templates *)

(** [d[k]] *)
Definition dict_get {V} (d : gmap str V) (k : str) : result V :=
  match d !! k with
  | Some v => Ok v
  | None => Raise KeyError
  end.

(** [tmpl % arg] for a template with the directives [%s] and [%%]. *)
Fixpoint py_format (tmpl arg : str) : str :=
  match tmpl with
  | [] => []
  | c :: t =>
      if eqc c 37 then
        match t with
        | d :: t' =>
            if eqc d 115 then arg ++ py_format t' arg
            else if eqc d 37 then 37%N :: py_format t' arg
            else c :: py_format t arg
        | [] => [c]
        end
      else c :: py_format t arg
  end.

(* ================================================================== *)
(** ** class Color *)

Module Color.
Definition PATH_BG : Z := 237.
Definition PATH_FG : Z := 250.
Definition CWD_FG : Z := 254.
Definition CWD_BG : Z := 25.
Definition SEPARATOR_FG : Z := 244.
Definition TIME_BG : Z := 25.
Definition TIME_FG : Z := 254.
Definition REPO_CLEAN_BG : Z := 148.
Definition REPO_CLEAN_FG : Z := 0.
Definition REPO_DIRTY_BG : Z := 161.
Definition REPO_DIRTY_FG : Z := 15.
Definition CMD_PASSED_BG : Z := 236.
Definition CMD_PASSED_FG : Z := 15.
Definition CMD_FAILED_BG : Z := 161.
Definition CMD_FAILED_FG : Z := 15.
Definition SVN_CHANGES_BG : Z := 148.
Definition SVN_CHANGES_FG : Z := 22.
Definition VIRTUAL_ENV_BG : Z := 35.
Definition VIRTUAL_ENV_FG : Z := 0.
End Color.

(* ================================================================== *)
(** ** class Segment and class Powerline: the data *)

(** A reference to a [Powerline] instance. *)
Definition loc := nat.

Record Segment : Type := mkSegment {
  Segment_powerline : loc;
  Segment_content : str;
  Segment_fg : Z;
  Segment_bg : Z;
  Segment_separator : str;
  Segment_separator_fg : Z;
  Segment_right : bool;
}.

Record Powerline : Type := mkPowerline {
  Powerline_shell : str;
  Powerline_color_template : str;
  Powerline_root_indicator : str;
  Powerline_reset : str;
  Powerline_separator : str;
  Powerline_separator_right : str;
  Powerline_separator_thin : str;
  Powerline_separator_right_thin : str;
  Powerline_segments : list Segment;
  Powerline_segments_right : list Segment;
  Powerline_segments_down : list Segment;
  Powerline_width : pyval;
}.

(** The store of [Powerline] instances. *)
Definition heap := loc -> Powerline.

Definition symbols : gmap str (gmap str str) :=
  list_to_map
    [ (u "compatible",
       list_to_map [ (u "separator", [0x25B6%N]);
                     (u "separator_thin", [0x276F%N]);
                     (u "separator_right", [0x25C0%N]);
                     (u "separator_right_thin", [0x276E%N]) ]);
      (u "patched",
       list_to_map [ (u "separator", [0xE0B0%N]);
                     (u "separator_thin", [0xE0B1%N]);
                     (u "separator_right", [0xE0B2%N]);
                     (u "separator_right_thin", [0xE0B3%N]) ]) ].

(** In the templates of zsh and of the bare terminal the escape
    character (code point 27) stands as itself; the template of bash
    spells it [\e]. *)
Definition color_templates : gmap str str :=
  list_to_map [ (u "bash", u "\[\e%s\]");
                (u "zsh", u "%%{" ++ [27%N] ++ u "%s%%}");
                (u "bare", [27%N] ++ u "%s") ].

Definition root_indicators : gmap str str :=
  list_to_map [ (u "bash", u " \$ "); (u "zsh", u " $ "); (u "bare", u " $ ") ].

(** [Powerline.__init__] *)
Definition Powerline_init (mode shell : str) (width : pyval) : result Powerline :=
  match dict_get color_templates shell with
  | Raise e => Raise e
  | Ok color_template =>
  match dict_get root_indicators shell with
  | Raise e => Raise e
  | Ok root_indicator =>
  match dict_get symbols mode with
  | Raise e => Raise e
  | Ok glyphs =>
  match dict_get glyphs (u "separator"), dict_get glyphs (u "separator_right"),
        dict_get glyphs (u "separator_thin"),
        dict_get glyphs (u "separator_right_thin") with
  | Ok separator, Ok separator_right, Ok separator_thin, Ok separator_right_thin =>
      Ok {| Powerline_shell := shell;
            Powerline_color_template := color_template;
            Powerline_root_indicator := root_indicator;
            Powerline_reset := py_format color_template (u "[0m");
            Powerline_separator := separator;
            Powerline_separator_right := separator_right;
            Powerline_separator_thin := separator_thin;
            Powerline_separator_right_thin := separator_right_thin;
            Powerline_segments := [];
            Powerline_segments_right := [];
            Powerline_segments_down := [];
            Powerline_width := width |}
  | _, _, _, _ => Raise KeyError
  end end end end.

(** [Powerline.color], [fgcolor] and [bgcolor] *)
Definition Powerline_color (self : Powerline) (prefix : str) (code : Z) : str :=
  py_format (Powerline_color_template self)
            (u "[" ++ prefix ++ u ";5;" ++ dec code ++ u "m").

Definition Powerline_fgcolor (self : Powerline) (code : Z) : str :=
  Powerline_color self (u "38") code.

Definition Powerline_bgcolor (self : Powerline) (code : Z) : str :=
  Powerline_color self (u "48") code.

Definition with_segments (pw : Powerline) (l : list Segment) : Powerline :=
  mkPowerline (Powerline_shell pw) (Powerline_color_template pw)
    (Powerline_root_indicator pw) (Powerline_reset pw) (Powerline_separator pw)
    (Powerline_separator_right pw) (Powerline_separator_thin pw)
    (Powerline_separator_right_thin pw) l (Powerline_segments_right pw)
    (Powerline_segments_down pw) (Powerline_width pw).

Definition with_segments_right (pw : Powerline) (l : list Segment) : Powerline :=
  mkPowerline (Powerline_shell pw) (Powerline_color_template pw)
    (Powerline_root_indicator pw) (Powerline_reset pw) (Powerline_separator pw)
    (Powerline_separator_right pw) (Powerline_separator_thin pw)
    (Powerline_separator_right_thin pw) (Powerline_segments pw) l
    (Powerline_segments_down pw) (Powerline_width pw).

Definition with_segments_down (pw : Powerline) (l : list Segment) : Powerline :=
  mkPowerline (Powerline_shell pw) (Powerline_color_template pw)
    (Powerline_root_indicator pw) (Powerline_reset pw) (Powerline_separator pw)
    (Powerline_separator_right pw) (Powerline_separator_thin pw)
    (Powerline_separator_right_thin pw) (Powerline_segments pw)
    (Powerline_segments_right pw) l (Powerline_width pw).

(** [Powerline.append], [append_right] and [append_down]: the list of
    the instance behind the reference grows at its end. *)
Definition Powerline_append (self : loc) (segment : Segment) (h : heap) : heap :=
  <[self := with_segments (h self) (Powerline_segments (h self) ++ [segment])]> h.

Definition Powerline_append_right (self : loc) (segment : Segment) (h : heap) : heap :=
  <[self := with_segments_right (h self)
              (Powerline_segments_right (h self) ++ [segment])]> h.

Definition Powerline_append_down (self : loc) (segment : Segment) (h : heap) : heap :=
  <[self := with_segments_down (h self)
              (Powerline_segments_down (h self) ++ [segment])]> h.

(* ================================================================== *)
(** ** class Segment: the methods *)

(** [a or b] where [a] is an integer or [None]. *)
Definition or_int (a : option Z) (b : Z) : Z :=
  match a with
  | Some z => if (z =? 0)%Z then b else z
  | None => b
  end.

(** [a or b] where [a] is a string or [None]. *)
Definition or_str (a : option str) (b : str) : str :=
  match a with
  | Some (c :: s) => c :: s
  | Some [] => b
  | None => b
  end.

(** [Segment.__init__]; [h] is the store the default separator is read from. *)
Definition Segment_init (h : heap) (powerline : loc) (content : str) (fg bg : Z)
    (separator : option str) (separator_fg : option Z) (right : bool) : Segment :=
  {| Segment_powerline := powerline;
     Segment_content := content;
     Segment_fg := fg;
     Segment_bg := bg;
     Segment_separator := or_str separator (Powerline_separator (h powerline));
     Segment_separator_fg := or_int separator_fg bg;
     Segment_right := right |}.

(** [Segment.width] *)
Definition Segment_width (self : Segment) : Z :=
  Z.of_nat (length (join [Segment_content self; Segment_separator self])).

(** What [draw] joins, each string with its kind: colour codes built
    from the template, and text. *)
Inductive piece : Type :=
  | Esc (code : str)
  | Txt (text : str).


(** The tuple that [Segment.draw] joins, with the kinds of its strings. *)
Definition Segment_draw_parts (h : heap) (self : Segment)
    (next_segment : option Segment) : list piece :=
  let powerline := h (Segment_powerline self) in
  let separator_bg :=
    match next_segment with
    | Some n => Powerline_bgcolor powerline (Segment_bg n)
    | None => Powerline_reset powerline
    end in
  if Segment_right self then
    [ Esc separator_bg;
      Esc (Powerline_fgcolor powerline (Segment_separator_fg self));
      Txt (Segment_separator self);
      Esc (Powerline_fgcolor powerline (Segment_fg self));
      Esc (Powerline_bgcolor powerline (Segment_bg self));
      Txt (Segment_content self) ]
  else
    [ Esc (Powerline_fgcolor powerline (Segment_fg self));
      Esc (Powerline_bgcolor powerline (Segment_bg self));
      Txt (Segment_content self);
      Esc separator_bg;
      Esc (Powerline_fgcolor powerline (Segment_separator_fg self));
      Txt (Segment_separator self) ].


(* ================================================================== *)
(** ** Powerline.draw *)

(** [row[1:] + [None]] *)
Definition shifted (row : list Segment) : list (option Segment) :=
  (Some <$> drop 1 row) ++ [None].

(** The pairs the left row and the indicator row are drawn from. *)
Definition left_pairs (row : list Segment) : list (Segment * option Segment) :=
  zip row (shifted row).

(** The pairs the right row is drawn from:
    [zip(reversed(segments_right), reversed(shifted_right))]. *)
Definition right_pairs (row : list Segment) : list (Segment * option Segment) :=
  zip (reverse row) (reverse (shifted row)).

Definition draw_pairs (h : heap) (pairs : list (Segment * option Segment))
    : list piece :=
  concat ((fun cn => Segment_draw_parts h (fst cn) (snd cn)) <$> pairs).

(** [sum(c.width() for c in row)] *)
Definition sum_width (row : list Segment) : Z :=
  foldr (fun c acc => Segment_width c + acc)%Z 0%Z row.



Section Draw.
Variable decimal : N -> option N.
Variable alloc : Z -> bool.


End Draw.






(** The characters a line shows: the text between the colour codes. *)
Definition printed (line : list piece) : str :=
  concat ((fun p => match p with Txt s => s | Esc _ => [] end) <$> line).

(** The texts of a line, one for each content, separator or padding. *)
Definition texts (line : list piece) : list str :=
  omap (fun p => match p with Txt s => Some s | Esc _ => None end) line.

(* ================================================================== *)
(** ** The surrounding system *)

(** The command lines the program starts:
    - [GitBranch]: [git branch]
    - [GrepStar]: [grep -e '\*'], reading the output of [git branch]
    - [GitStatus]: [git status]
    - [SvnStatus]: [svn status]
    - [GrepCount]: [grep -c '^[ACDIMR\!\~]'], reading the output of
      [svn status]
    - [HgBranch]: the shell command [hg branch 2> /dev/null]
    - [HgStatus]: [hg status] *)
Inductive cmd : Set :=
  | GitBranch | GrepStar | GitStatus | SvnStatus | GrepCount
  | HgBranch | HgStatus.

Global Instance cmd_eq_dec : EqDecision cmd.
Proof. solve_decision. Defined.

(** A text that an index of the interpreter can measure. *)
Definition fits (s : str) : bool := (Z.of_nat (length s) <=? ssize_max)%Z.

(** What a process wrote, decoded. Either text is one whose length an
    index can hold, as the strings of the interpreter and the counters
    of the tools that read a pipe are. *)
Record output : Type := mkOutput {
  stdout : str;
  stderr : str;
  output_fits : fits stdout && fits stderr;
}.

(** How starting a process fails. *)
Inductive failure : Set := os_error | called_process_error.

Definition failure_exn (f : failure) : exn :=
  match f with
  | os_error => OSError
  | called_process_error => CalledProcessError
  end.

(** The world outside the program: the interpreter's digit table, the
    environment variables, and for every process start (given the starts
    made so far) either what the process writes or a failure. What the
    two [grep] processes write is computed from their input; for them
    only success or failure is taken from [World_start]. *)
Record World : Type := mkWorld {
  World_decimal : N -> option N;
  World_getenv : str -> option str;
  World_start : list cmd -> cmd -> output + failure;
}.

(** The mutable state: the store, the module-level name [p] (bound
    before any builder is called) and the log of process starts. *)
Record state : Type := mkState {
  st_heap : heap;
  st_p : loc;
  st_log : list cmd;
}.

Definition M (A : Type) : Type := state -> result A * state.

Definition ret {A} (a : A) : M A := fun st => (Ok a, st).

Definition raise {A} (e : exn) : M A := fun st => (Raise e, st).

Definition bind {A B} (m : M A) (k : A -> M B) : M B :=
  fun st =>
    match m st with
    | (Ok a, st') => k a st'
    | (Raise e, st') => (Raise e, st')
    end.

Notation "x <- m ;; k" := (bind m (fun x => k))
  (at level 100, m at next level, right associativity).

(** [try: body / except <handled>: handler] *)
Definition try_except {A} (body : M A) (handled : exn -> bool) (handler : M A)
    : M A :=
  fun st =>
    match body st with
    | (Ok a, st') => (Ok a, st')
    | (Raise e, st') => if handled e then handler st' else (Raise e, st')
    end.

Definition lift {A} (r : result A) : M A := fun st => (r, st).

Definition get_heap : M heap := fun st => (Ok (st_heap st), st).

Definition get_p : M loc := fun st => (Ok (st_p st), st).

Definition update_heap (f : heap -> heap) : M unit :=
  fun st => (Ok tt, mkState (f (st_heap st)) (st_p st) (st_log st)).

(** Lines of a text as a line-oriented tool reads them. *)
Definition text_lines (s : str) : list str :=
  let ls := str_split 10 s in
  match reverse ls with
  | [] :: r => reverse r
  | _ => ls
  end.

(** [grep PATTERN]: the selected lines, each ended by a newline. *)
Definition grep (sel : str -> bool) (input : str) : str :=
  concat ((fun l => l ++ [10%N]) <$> filter (fun l => sel l = true) (text_lines input)).

(** [grep -c PATTERN]: the number of selected lines. *)
Definition grep_c (sel : str -> bool) (input : str) : str :=
  dec (Z.of_nat (length (filter (fun l => sel l = true) (text_lines input))))
    ++ [10%N].

(** The pattern [\*]: the line has an asterisk. *)
Definition has_star (line : str) : bool := existsb (eqc 42) line.

(** The pattern [^[ACDIMR\!\~]]: inside the brackets the backslash
    stands for itself. *)
Definition svn_changed_codes : str := u "ACDIMR\!\~".

Definition svn_changed (line : str) : bool :=
  match line with
  | c :: _ => existsb (eqc c) svn_changed_codes
  | [] => false
  end.

Section Builders.
Variable W : World.

(** [os.getenv] *)
Definition getenv (name : str) : option str := World_getenv W name.

(** [subprocess.Popen(...)] (and [os.popen] for [HgBranch]) followed by
    reading what the process writes. *)
Definition Popen (c : cmd) : M output :=
  fun st =>
    let st' := mkState (st_heap st) (st_p st) (st_log st ++ [c]) in
    match World_start W (st_log st) c with
    | inl o => (Ok o, st')
    | inr f => (Raise (failure_exn f), st')
    end.

(* ---------------------------------------------------------------- *)
(** *** add_cwd_segment *)

(** [for n in range(count): body(n)] *)
Fixpoint for_range (ns : list nat) (body : nat -> M unit) : M unit :=
  match ns with
  | [] => ret tt
  | n :: ns' => _ <- body n ;; for_range ns' body
  end.

(** The list [names] of [add_cwd_segment] as [cwd.split('/')] gives it. *)
Definition cwd_components (cwd : option str) : result (list str) :=
  let home := getenv (u "HOME") in
  let cwd :=
    match cwd with
    | Some (c :: s) => Some (c :: s)
    | _ => getenv (u "PWD")
    end in
  match cwd, home with
  | None, _ => Raise AttributeError
  | Some _, None => Raise TypeError
  | Some cwd, Some home =>
      let cwd :=
        if (str_find cwd home =? 0)%Z then str_replace1 home (u "~") cwd
        else cwd in
      match cwd with
      | [] => Raise IndexError
      | c :: rest =>
          let cwd := if eqc c 47 then rest else cwd in
          Ok (str_split 47 cwd)
      end
  end.

(** [names[:2] + [u'\u2026'] + names[2 - maxdepth:]] when there are
    more names than [maxdepth]. *)
Definition collapse (names : list str) (maxdepth : Z) : list str :=
  if (maxdepth <? Z.of_nat (length names))%Z
  then take 2 names ++ [[0x2026%N]] ++ slice_from names (2 - maxdepth)
  else names.

(** The list [names] after the collapse. *)
Definition cwd_names (cwd : option str) (maxdepth : Z) : result (list str) :=
  match cwd_components cwd with
  | Raise e => Raise e
  | Ok names => Ok (collapse names maxdepth)
  end.

(** The body of the loop of [add_cwd_segment] for the index [n]. *)
Definition add_path_segment (powerline : loc) (names : list str) (n : nat)
    : M unit :=
  h <- get_heap ;;
  let thick := (Z.of_nat n =? Z.of_nat (length names) - 2)%Z in
  let sep := if thick then Powerline_separator (h powerline)
             else Powerline_separator_thin (h powerline) in
  let sepc := if thick then Color.PATH_BG else Color.SEPARATOR_FG in
  match names !! n with
  | None => raise IndexError
  | Some name =>
      update_heap
        (Powerline_append powerline
           (Segment_init h powerline (spaced name) Color.PATH_FG
              Color.PATH_BG (Some sep) (Some sepc) false))
  end.

Definition add_cwd_segment (powerline : loc) (cwd : option str)
    (maxdepth : Z) (cwd_only : bool) : M unit :=
  names <- lift (cwd_names cwd maxdepth) ;;
  _ <- (if cwd_only then ret tt
        else for_range (seq 0 (length (slice_to names (-1))))
               (add_path_segment powerline names)) ;;
  h <- get_heap ;;
  match last names with
  | None => raise IndexError
  | Some name =>
      update_heap
        (Powerline_append powerline
           (Segment_init h powerline (spaced name) Color.CWD_FG
              Color.CWD_BG None None false))
  end.
End Builders.

(* ================================================================== *)
(** ** The pattern of get_git_status *)

Section GitPattern.
Variable decimal : N -> option N.

(** [(\d+) comm]: the longest run of digits is tried first, then the
    shorter ones. *)
Fixpoint digits_comm (s : str) : option str :=
  match s with
  | c :: s' =>
      if isdigit decimal c then
        match digits_comm s' with
        | Some ds => Some (c :: ds)
        | None => if startswith (u " comm") s' then Some [c] else None
        end
      else None
  | [] => None
  end.

(** [.*?(\d+) comm]: the shortest skip is tried first; the dot takes
    any character but a newline. *)
Fixpoint skip_digits_comm (s : str) : option str :=
  match digits_comm s with
  | Some ds => Some ds
  | None =>
      match s with
      | c :: s' => if eqc c 10 then None else skip_digits_comm s'
      | [] => None
      end
  end.

(** The whole pattern, matched at the start of [s]: the two groups. *)
Definition match_here (s : str) : option (str * str) :=
  if startswith (u "Your branch is ") s then
    let r := drop 15 s in
    match (if startswith (u "ahead") r then skip_digits_comm (drop 5 r)
           else None) with
    | Some ds => Some (u "ahead", ds)
    | None =>
        match (if startswith (u "behind") r then skip_digits_comm (drop 6 r)
               else None) with
        | Some ds => Some (u "behind", ds)
        | None => None
        end
    end
  else None.

(** [re.findall(pattern, line)]: [None] when the list is empty, else
    its first element (the only one the program reads). *)
Fixpoint origin_status (line : str) : option (str * str) :=
  match match_here line with
  | Some m => Some m
  | None =>
      match line with
      | _ :: line' => origin_status line'
      | [] => None
      end
  end.

(** The count that the pattern finds on the line has more digits than
    [int()] converts. *)
Definition count_too_long (line : str) : bool :=
  match origin_status line with
  | Some (_, digits) => (max_str_digits <? Z.of_nat (length digits))%Z
  | None => false
  end.

(** One turn of the loop of [get_git_status] over
    [(has_pending_commits, has_untracked_files, origin_position)]. *)
Definition git_status_line (acc : bool * bool * str) (line : str)
    : result (bool * bool * str) :=
  let '(has_pending_commits, has_untracked_files, origin_position) := acc in
  let position :=
    match origin_status line with
    | Some (word, digits) =>
        match py_int decimal (VStr digits) with
        | Raise e => Raise e
        | Ok n =>
            let pos := u " " ++ dec n in
            let pos := if str_eqb word (u "behind") then pos ++ [0x21E3%N]
                       else pos in
            let pos := if str_eqb word (u "ahead") then pos ++ [0x21E1%N]
                       else pos in
            Ok pos
        end
    | None => Ok origin_position
    end in
  match position with
  | Raise e => Raise e
  | Ok origin_position =>
      Ok (if (0 <=? str_find line (u "nothing to commit"))%Z then false
          else has_pending_commits,
          if (0 <=? str_find line (u "Untracked files"))%Z then true
          else has_untracked_files,
          origin_position)
  end.

(** [for line in lines: acc = step(acc, line)] where a turn may raise. *)
Fixpoint for_lines {S} (step : S -> str -> result S) (acc : S)
    (lines : list str) : result S :=
  match lines with
  | [] => Ok acc
  | l :: ls =>
      match step acc l with
      | Ok acc' => for_lines step acc' ls
      | Raise e => Raise e
      end
  end.

(** [get_git_status] on the decoded text of [git status]. *)
Definition parse_git_status (text : str) : result (bool * bool * str) :=
  for_lines git_status_line (true, false, []) (str_split 10 text).
End GitPattern.

(** One turn of the loop of [get_hg_status] over
    [(has_modified_files, has_untracked_files, has_missing_files)]. *)
Definition hg_status_line (acc : bool * bool * bool) (line : str)
    : bool * bool * bool :=
  let '(has_modified_files, has_untracked_files, has_missing_files) := acc in
  match line with
  | [] => acc
  | c :: _ =>
      if eqc c 63 then (has_modified_files, true, has_missing_files)
      else if eqc c 33 then (has_modified_files, has_untracked_files, true)
      else (true, has_untracked_files, has_missing_files)
  end.

Definition parse_hg_status (text : str) : bool * bool * bool :=
  foldl hg_status_line (false, false, false) (str_split 10 text).

(** Truth of a returned value: [None] and [False] are false. *)
Definition truthy (v : option bool) : bool :=
  match v with
  | Some b => b
  | None => false
  end.

(** The exceptions [add_repo_segment] and [add_svn_segment] catch. *)
Definition process_error (e : exn) : bool :=
  match e with
  | OSError | CalledProcessError => true
  | _ => false
  end.

(* ================================================================== *)
(** ** The repository detectors *)

Section Detectors.
Variable W : World.

Definition get_git_status : M (bool * bool * str) :=
  o <- Popen W GitStatus ;;
  lift (parse_git_status (World_decimal W) (stdout o)).

Definition get_hg_status : M (bool * bool * bool) :=
  o <- Popen W HgStatus ;;
  ret (parse_hg_status (stdout o)).

Definition add_git_segment (powerline : loc) (cwd : option str)
    : M (option bool) :=
  p1 <- Popen W GitBranch ;;
  _ <- Popen W GrepStar ;;
  let output := bytes_strip (grep has_star (stdout p1)) in
  match output with
  | [] => ret (Some false)
  | _ :: _ =>
      let branch := slice_from (str_rstrip output) 2 in
      status <- get_git_status ;;
      let '(has_pending_commits, has_untracked_files, origin_position) :=
        status in
      let branch := branch ++ origin_position in
      let branch := if has_untracked_files then branch ++ u " +"
                    else branch in
      let bg := if has_pending_commits then Color.REPO_DIRTY_BG
                else Color.REPO_CLEAN_BG in
      let fg := if has_pending_commits then Color.REPO_DIRTY_FG
                else Color.REPO_CLEAN_FG in
      h <- get_heap ;;
      _ <- update_heap
             (Powerline_append_right powerline
                (Segment_init h powerline (spaced branch) fg bg
                   (Some (Powerline_separator_right (h powerline))) None
                   true)) ;;
      ret (Some true)
  end.

(** The [return True] that follows the [try] statement is written as
    the end of its body: nothing between the two can raise. *)
Definition add_svn_segment (powerline : loc) (cwd : option str)
    : M (option bool) :=
  is_svn <- Popen W SvnStatus ;;
  let is_svn_output := bytes_strip (stderr is_svn) in
  if negb (length is_svn_output =? 0) then ret None
  else
    try_except
      (p1 <- Popen W SvnStatus ;;
       _ <- Popen W GrepCount ;;
       let output := bytes_strip (grep_c svn_changed (stdout p1)) in
       _ <- (if 0 <? length output then
               n <- lift (py_int (World_decimal W) (VStr output)) ;;
               if (0 <? n)%Z then
                 let changes := str_strip output in
                 h <- get_heap ;;
                 update_heap
                   (Powerline_append powerline
                      (Segment_init h powerline (spaced changes)
                         Color.SVN_CHANGES_FG Color.SVN_CHANGES_BG None None
                         false))
               else ret tt
             else ret tt) ;;
       ret (Some true))
      process_error
      (ret (Some false)).

Definition add_hg_segment (powerline : loc) (cwd : option str)
    : M (option bool) :=
  o <- Popen W HgBranch ;;
  let branch := str_rstrip (stdout o) in
  if length branch =? 0 then ret (Some false)
  else
    status <- get_hg_status ;;
    let '(has_modified_files, has_untracked_files, has_missing_files) :=
      status in
    let dirty :=
      has_modified_files || has_untracked_files || has_missing_files in
    let bg := if dirty then Color.REPO_DIRTY_BG else Color.REPO_CLEAN_BG in
    let fg := if dirty then Color.REPO_DIRTY_FG else Color.REPO_CLEAN_FG in
    let extra := (if has_untracked_files then u "+" else [])
                   ++ (if has_missing_files then u "!" else []) in
    let branch :=
      if dirty then
        branch ++ (match extra with [] => [] | _ :: _ => u " " ++ extra end)
      else branch in
    h <- get_heap ;;
    _ <- update_heap
           (Powerline_append_right powerline
              (Segment_init h powerline (spaced branch) fg bg
                 (Some (Powerline_separator_right (h powerline))) None true)) ;;
    ret (Some true).

(** The loop of [add_repo_segment] over a tuple of detectors: each is
    called on the module-level [p]. *)
Fixpoint dispatch (detectors : list (loc -> option str -> M (option bool)))
    (cwd : option str) : M unit :=
  match detectors with
  | [] => ret tt
  | detector :: rest =>
      found <- try_except
                 (p <- get_p ;;
                  v <- detector p cwd ;;
                  ret (truthy v))
                 process_error
                 (ret false) ;;
      if found then ret tt else dispatch rest cwd
  end.

(** [add_repo_segment]: the parameter [powerline] is not read. *)
Definition add_repo_segment (powerline : loc) (cwd : option str) : M unit :=
  dispatch [add_git_segment; add_svn_segment; add_hg_segment] cwd.
End Detectors.

(* ================================================================== *)
(** ** The specification's wording, for comparison with the code *)

(** The width of a segment as the specification words it. *)
Definition spec_width (s : Segment) : Z :=
  (Z.of_nat (length (Segment_content s))
   + Z.of_nat (length (Segment_separator s)))%Z.


(** The texts a segment shows, in the order it draws them. *)
Definition segment_texts (s : Segment) : list str :=
  if Segment_right s then [Segment_separator s; Segment_content s]
  else [Segment_content s; Segment_separator s].

(** The pairing of the right row as the specification words it: the
    reversed row, each element with the next one of that iteration. *)
Definition right_pairs_claimed (row : list Segment)
    : list (Segment * option Segment) :=
  zip (reverse row) (shifted (reverse row)).

(** The status codes the specification lists for Subversion. *)
Definition svn_claimed_codes : str := u "ACDIMRX".

Definition svn_claimed (line : str) : bool :=
  match line with
  | c :: _ => existsb (eqc c) svn_claimed_codes
  | [] => false
  end.

(* ================================================================== *)
(** ** Concrete values used as instances *)

(** What [Powerline.__init__] builds for the patched glyphs, the bash
    templates and the width option [--width 20]. *)
Definition example_powerline : Powerline :=
  {| Powerline_shell := u "bash";
     Powerline_color_template := u "\[\e%s\]";
     Powerline_root_indicator := u " \$ ";
     Powerline_reset := u "\[\e[0m\]";
     Powerline_separator := [0xE0B0%N];
     Powerline_separator_right := [0xE0B2%N];
     Powerline_separator_thin := [0xE0B1%N];
     Powerline_separator_right_thin := [0xE0B3%N];
     Powerline_segments := [];
     Powerline_segments_right := [];
     Powerline_segments_down := [];
     Powerline_width := VStr (u "20") |}.

Definition example_heap : heap := fun _ => example_powerline.

(** Two right-row segments as [add_time_segment] and [add_git_segment]
    build them, and a left-row segment. *)
Definition seg_time : Segment :=
  Segment_init example_heap 0 (u " Wed 04 10:00:00 ") Color.TIME_FG
    Color.TIME_BG (Some [0xE0B2%N]) None true.

Definition seg_git : Segment :=
  Segment_init example_heap 0 (u " main ") Color.REPO_CLEAN_FG
    Color.REPO_CLEAN_BG (Some [0xE0B2%N]) None true.

Definition seg_cwd : Segment :=
  Segment_init example_heap 0 (u " ~ ") Color.CWD_FG Color.CWD_BG None None
    false.






(** An environment with a home directory, and the world of a directory
    under no version control: every tool starts and writes nothing but an
    error message. *)
Definition example_getenv (name : str) : option str :=
  if str_eqb name (u "HOME") then Some (u "/home/u")
  else if str_eqb name (u "PWD") then Some (u "/home/u")
  else None.

Definition plain_world : World :=
  mkWorld ascii_decimal example_getenv
    (fun _ c =>
       match c with
       | SvnStatus => inl (mkOutput [] (u "svn: warning: W155007") I)
       | _ => inl (mkOutput [] [] I)
       end).

Definition example_state : state := mkState example_heap 0 [].

(** A path segment of [add_cwd_segment] for the component [name], as the
    instance [pw] at [powerline] makes it draw. *)
Definition path_segment (powerline : loc) (pw : Powerline) (name : str)
    (thick : bool) : Segment :=
  {| Segment_powerline := powerline;
     Segment_content := spaced name;
     Segment_fg := Color.PATH_FG;
     Segment_bg := Color.PATH_BG;
     Segment_separator :=
       or_str (Some (if thick then Powerline_separator pw
                     else Powerline_separator_thin pw))
              (Powerline_separator pw);
     Segment_separator_fg :=
       if thick then Color.PATH_BG else Color.SEPARATOR_FG;
     Segment_right := false |}.

(** The last segment of [add_cwd_segment]. *)
Definition cwd_segment (powerline : loc) (pw : Powerline) (name : str)
    : Segment :=
  {| Segment_powerline := powerline;
     Segment_content := spaced name;
     Segment_fg := Color.CWD_FG;
     Segment_bg := Color.CWD_BG;
     Segment_separator := Powerline_separator pw;
     Segment_separator_fg := Color.CWD_BG;
     Segment_right := false |}.

(** The world of a Subversion working copy whose only status line is
    an externals directory; [git branch] prints nothing there. *)
Definition svn_externals_world : World :=
  mkWorld ascii_decimal example_getenv
    (fun _ c =>
       match c with
       | SvnStatus => inl (mkOutput (u "X       vendor" ++ [10%N]) [] I)
       | _ => inl (mkOutput [] [] I)
       end).

(** The segment of [add_svn_segment] for [count] changes. *)
Definition svn_segment (powerline : loc) (pw : Powerline) (count : nat)
    : Segment :=
  {| Segment_powerline := powerline;
     Segment_content := spaced (dec (Z.of_nat count));
     Segment_fg := Color.SVN_CHANGES_FG;
     Segment_bg := Color.SVN_CHANGES_BG;
     Segment_separator := Powerline_separator pw;
     Segment_separator_fg := Color.SVN_CHANGES_BG;
     Segment_right := false |}.

(** The code points of the digits [0] to [9]. *)
Definition ascii_digit (c : N) : Prop := (48 <= c <= 57)%N.

(** What is assumed of the interpreter's digit table: below 128 its
    digits are [0] to [9], and no whitespace is a digit. *)
Record table_ok (decimal : N -> option N) : Prop := {
  table_ascii : ∀ c, (c < 128)%N → decimal c = ascii_decimal c;
  table_space : ∀ c, unicode_space c = true → decimal c = None;
}.

(** The world of a Subversion working copy with a modified file, a
    missing file, an externals directory and an unversioned file. *)
Definition svn_status_text : str :=
  u "M       main.c" ++ [10%N] ++ u "!       gone.c" ++ [10%N]
    ++ u "X       vendor" ++ [10%N] ++ u "?       notes.txt" ++ [10%N].

Definition svn_changes_world : World :=
  mkWorld ascii_decimal example_getenv
    (fun _ c =>
       match c with
       | SvnStatus => inl (mkOutput svn_status_text [] I)
       | _ => inl (mkOutput [] [] I)
       end).

(** The line of the git scenario. *)
Definition ahead_line : str :=
  u "Your branch is ahead of 'origin/main' by 3 commits".

(** The label [add_git_segment] shows for the stripped output of the
    branch query and the status. *)
Definition git_label (output : str) (status : bool * bool * str) : str :=
  let '(_, has_untracked_files, origin_position) := status in
  (slice_from (str_rstrip output) 2 ++ origin_position)
    ++ (if has_untracked_files then u " +" else []).

(** The segment of [add_git_segment]. *)
Definition git_segment (powerline : loc) (pw : Powerline) (output : str)
    (status : bool * bool * str) : Segment :=
  let bg := if status.1.1 then Color.REPO_DIRTY_BG else Color.REPO_CLEAN_BG in
  {| Segment_powerline := powerline;
     Segment_content := spaced (git_label output status);
     Segment_fg := if status.1.1 then Color.REPO_DIRTY_FG
                   else Color.REPO_CLEAN_FG;
     Segment_bg := bg;
     Segment_separator :=
       or_str (Some (Powerline_separator_right pw)) (Powerline_separator pw);
     Segment_separator_fg := bg;
     Segment_right := true |}.

(** What [git branch] and [git status] write in a clone that is three
    commits ahead of its upstream. *)
Definition git_branch_text : str :=
  u "  dev" ++ [10%N] ++ u "* main" ++ [10%N].

Definition git_status_text : str :=
  u "On branch main" ++ [10%N] ++ ahead_line ++ [10%N] ++ [10%N]
    ++ u "nothing to commit, working tree clean" ++ [10%N].

(** The same clone with an untracked file whose name reads like the
    line of a clone that is behind. *)
Definition git_status_text_untracked : str :=
  u "On branch main" ++ [10%N] ++ ahead_line ++ [10%N] ++ [10%N]
    ++ u "Untracked files:" ++ [10%N; 9%N]
    ++ u "Your branch is behind by 5 commits.txt" ++ [10%N].

(** What an older git writes for the same clone: every line after a
    number sign, the sentence with its full stop. *)
Definition git_status_text_dot : str :=
  u "# On branch main" ++ [10%N] ++ u "# " ++ ahead_line ++ u "." ++ [10%N]
    ++ u "#" ++ [10%N] ++ u "nothing to commit, working tree clean"
    ++ [10%N].

(** A directory that is a git clone and a Subversion working copy. *)
Definition git_svn_world : World :=
  mkWorld ascii_decimal example_getenv
    (fun _ c =>
       match c with
       | GitBranch => inl (mkOutput git_branch_text [] I)
       | GitStatus => inl (mkOutput git_status_text [] I)
       | SvnStatus => inl (mkOutput svn_status_text [] I)
       | _ => inl (mkOutput [] [] I)
       end).

(** The same clone with the untracked file of [git_status_text_untracked]. *)
Definition git_untracked_world : World :=
  mkWorld ascii_decimal example_getenv
    (fun _ c =>
       match c with
       | GitBranch => inl (mkOutput git_branch_text [] I)
       | GitStatus => inl (mkOutput git_status_text_untracked [] I)
       | _ => inl (mkOutput [] [] I)
       end).

(** The clone of [git_status_text_dot]. *)
Definition git_dot_world : World :=
  mkWorld ascii_decimal example_getenv
    (fun _ c =>
       match c with
       | GitBranch => inl (mkOutput git_branch_text [] I)
       | GitStatus => inl (mkOutput git_status_text_dot [] I)
       | _ => inl (mkOutput [] [] I)
       end).

(** A clone inside a Subversion working copy on a machine where the
    second start of [git] fails: [git branch] shows the branch, and
    [git status] does not start. *)
Definition git_status_fails_world : World :=
  mkWorld ascii_decimal example_getenv
    (fun _ c =>
       match c with
       | GitBranch => inl (mkOutput git_branch_text [] I)
       | GitStatus => inr os_error
       | SvnStatus => inl (mkOutput svn_status_text [] I)
       | _ => inl (mkOutput [] [] I)
       end).

(** A Subversion working copy on a machine without git: starting
    [git] fails. *)
Definition git_missing_world : World :=
  mkWorld ascii_decimal example_getenv
    (fun _ c =>
       match c with
       | GitBranch | GitStatus => inr os_error
       | SvnStatus => inl (mkOutput svn_status_text [] I)
       | _ => inl (mkOutput [] [] I)
       end).

(** A detector reports presence: it returns a true value. *)
Definition reports_presence (r : result (option bool)) : bool :=
  match r with
  | Ok v => truthy v
  | Raise _ => false
  end.

(** A detector reports no repository of its system: it returns [False]
    or [None], or it fails to start a process. *)
Definition not_detected (r : result (option bool)) : bool :=
  match r with
  | Ok v => negb (truthy v)
  | Raise e => process_error e
  end.

(** From [st] to [st'] nothing changed but the rows of the instance at
    [l], which may have grown at their ends, and the log. *)
Definition grows (l : loc) (st st' : state) : Prop :=
  st_p st' = st_p st
  ∧ (∀ l', l' ≠ l → st_heap st' l' = st_heap st l')
  ∧ ∃ left right,
      st_heap st' l
      = with_segments_right
          (with_segments (st_heap st l)
             (Powerline_segments (st_heap st l) ++ left))
          (Powerline_segments_right (st_heap st l) ++ right).

Definition frames {A} (l : loc) (m : M A) : Prop :=
  ∀ st, grows l st (m st).2.

(* ================================================================== *)
(** ** The other builders *)

(** [s.rfind(c)] for one character: the highest index, or [-1]. *)
Fixpoint rfind_from (c : N) (s : str) (i best : Z) : Z :=
  match s with
  | [] => best
  | x :: s' => rfind_from c s' (i + 1)%Z (if eqc x c then i else best)
  end.

Definition str_rfind (s : str) (c : N) : Z := rfind_from c s 0%Z (-1)%Z.

(** [os.path.basename(p)]: [p[p.rfind('/') + 1:]]. *)
Definition basename (p : str) : str :=
  slice_from p (str_rfind p 47 + 1).

Section OtherBuilders.
Variable W : World.

Definition add_virtual_env_segment (powerline : loc) (cwd : option str)
    : M bool :=
  match getenv W (u "VIRTUAL_ENV") with
  | None => ret false
  | Some env =>
      let env_name := basename env in
      h <- get_heap ;;
      _ <- update_heap
             (Powerline_append_right powerline
                (Segment_init h powerline (spaced env_name)
                   Color.VIRTUAL_ENV_FG Color.VIRTUAL_ENV_BG
                   (Some (Powerline_separator_right (h powerline))) None
                   true)) ;;
      ret true
  end.


Definition add_root_indicator (powerline : loc) (error : pyval) : M unit :=
  n <- lift (py_int (World_decimal W) error) ;;
  let failed := negb (n =? 0)%Z in
  let bg := if failed then Color.CMD_FAILED_BG else Color.CMD_PASSED_BG in
  let fg := if failed then Color.CMD_FAILED_FG else Color.CMD_PASSED_FG in
  h <- get_heap ;;
  update_heap
    (Powerline_append_down powerline
       (Segment_init h powerline (Powerline_root_indicator (h powerline)) fg
          bg None None false)).
End OtherBuilders.

(** Some line of the text has [needle] in it. *)
Definition some_line_has (needle : str) (text : str) : bool :=
  existsb (fun line => (0 <=? str_find line needle)%Z) (str_split 10 text).

(** Some line of the text starts with a character that [sel] takes. *)
Definition some_line_starts (sel : N -> bool) (text : str) : bool :=
  existsb (fun line => match line with c :: _ => sel c | [] => false end)
    (str_split 10 text).

(** The label [add_hg_segment] shows for the stripped output of the
    branch query and the status. *)
Definition hg_label (branch : str) (status : bool * bool * bool) : str :=
  let '(has_modified_files, has_untracked_files, has_missing_files) := status in
  branch
    ++ match has_untracked_files, has_missing_files with
       | true, true => u " +!"
       | true, false => u " +"
       | false, true => u " !"
       | false, false => []
       end.

(** The segment of [add_hg_segment]. *)
Definition hg_segment (powerline : loc) (pw : Powerline) (branch : str)
    (status : bool * bool * bool) : Segment :=
  let dirty := status.1.1 || status.1.2 || status.2 in
  let bg := if dirty then Color.REPO_DIRTY_BG else Color.REPO_CLEAN_BG in
  {| Segment_powerline := powerline;
     Segment_content := spaced (hg_label branch status);
     Segment_fg := if dirty then Color.REPO_DIRTY_FG else Color.REPO_CLEAN_FG;
     Segment_bg := bg;
     Segment_separator :=
       or_str (Some (Powerline_separator_right pw)) (Powerline_separator pw);
     Segment_separator_fg := bg;
     Segment_right := true |}.

(** The plain directory with a virtual environment active, and the same
    with an empty environment. *)
Definition venv_world : World :=
  mkWorld ascii_decimal
    (fun name =>
       if str_eqb name (u "VIRTUAL_ENV")
       then Some (u "/home/u/.virtualenvs" ++ [47%N] ++ u "venv")
       else example_getenv name)
    (World_start plain_world).

Definition no_home_world : World :=
  mkWorld ascii_decimal (fun _ => None) (World_start plain_world).

(* ================================================================== *)
(** ** get_valid_cwd and the main program *)

(** The file system and the clock of the host:
    - [Host_getcwd]: what [os.getcwd()] returns, [None] when it raises;
    - [Host_exists]: [os.path.exists];
    - [Host_chdir]: whether [os.chdir] succeeds;
    - [Host_strftime]: [now.strftime("%a %d %H:%M:%S")];
    - [Host_alloc]: whether the interpreter gets the memory for a new
      string of that many characters. *)
Record Host : Type := mkHost {
  Host_getcwd : option str;
  Host_exists : str -> bool;
  Host_chdir : str -> bool;
  Host_strftime : str;
  Host_alloc : Z -> bool;
}.

(** [sep.join(parts)] *)
Fixpoint str_join (sep : str) (parts : list str) : str :=
  match parts with
  | [] => []
  | w :: ws =>
      match ws with
      | [] => w
      | _ :: _ => w ++ sep ++ str_join sep ws
      end
  end.

(** [warn(msg)]: [print('[powerline-shell] ', msg)] writes the two
    values with a space between them and a newline after them. *)
Definition warn (msg : str) : str :=
  u "[powerline-shell] " ++ u " " ++ msg ++ [10%N].

(** The loop of [get_valid_cwd]:
    [while parts and not os.path.exists(up): parts.pop(); up = os.sep.join(parts)].
    The list [parts] is kept from its last element to its first, so that
    [pop()] takes its head. *)
Fixpoint walk_up (path_exists : str -> bool) (rparts : list str) (up : str)
    : str :=
  match rparts with
  | [] => up
  | _ :: rest =>
      if path_exists up then up
      else walk_up path_exists rest (str_join (u "/") (reverse rest))
  end.

(** How [get_valid_cwd] ends: it returns [cwd] after printing and after
    changing to a directory, or the process exits, or an exception
    leaves the function. *)
Inductive cwd_result : Type :=
  | Cwd (cwd : str) (printed : str) (changed_to : option str)
  | CwdExit (code : Z) (printed : str)
  | CwdRaise (e : exn).

Definition get_valid_cwd (W : World) (H : Host) : cwd_result :=
  match Host_getcwd H with
  | Some cwd => Cwd cwd [] None
  | None =>
      match getenv W (u "PWD") with
      | None => CwdRaise AttributeError
      | Some cwd =>
          let parts := str_split 47 cwd in
          let up := walk_up (Host_exists H) (reverse parts) cwd in
          if Host_chdir H up then
            Cwd cwd
              (warn (u "Your current directory is invalid. Lowest valid directory: "
                       ++ up))
              (Some up)
          else CwdExit 1 (warn (u "Your current directory is invalid."))
      end
  end.





(** How the program ends, with what it wrote to standard output. *)
Inductive run : Type :=
  | Printed (out : str)
  | Exited (code : Z) (out : str)
  | Failed (e : exn) (out : str).


(** A host whose working directory was removed: [/home/u/gone/deep] is
    the directory the shell is in, and [/home/u] is the lowest directory
    that still exists. *)
Definition gone_host : Host :=
  mkHost None
    (fun path => str_eqb path (u "/home/u") || str_eqb path (u "/home"))
    (fun path => str_eqb path (u "/home/u"))
    (u "Wed 04 10:00:00") (fun _ => true).

Definition gone_world : World :=
  mkWorld ascii_decimal
    (fun name =>
       if str_eqb name (u "PWD") then Some (u "/home/u/gone/deep")
       else example_getenv name)
    (World_start plain_world).

(** A host in an existing directory. *)
Definition example_host : Host :=
  mkHost (Some (u "/home/u/src")) (fun _ => true) (fun _ => true)
    (u "Wed 04 10:00:00") (fun _ => true).


(** A run of a detector on the instance at [l] that left the name [p]
    alone and appended nothing, or returned a true value after one
    [append] or one [append_right]. *)
Definition appends_once (l : loc) (st : state)
    (run : result (option bool) * state) : Prop :=
  st_p run.2 = st_p st
  ∧ (st_heap run.2 = st_heap st
     ∨ (∃ v, run.1 = Ok v ∧ truthy v = true)
       ∧ ∃ seg,
           st_heap run.2 = Powerline_append l seg (st_heap st)
           ∨ st_heap run.2 = Powerline_append_right l seg (st_heap st)).

(* ================================================================== *)
(** * Properties *)

(** ** Rendering *)





Lemma sum_width_spec row :
  sum_width row = foldr (fun s acc => spec_width s + acc)%Z 0%Z row.
Proof.
  induction row as [|s row IH]; simpl; [done|].
  rewrite IH. f_equal. unfold Segment_width, spec_width, join. simpl.
  rewrite app_nil_r, length_app. lia.
Qed.


Lemma shifted_length row : row ≠ [] → length (shifted row) = length row.
Proof.
  destruct row as [|s row]; [done|]. intros _. unfold shifted.
  rewrite length_app, length_fmap, length_drop. simpl. lia.
Qed.

Lemma left_pairs_fst row : fst <$> left_pairs row = row.
Proof.
  destruct row as [|s row]; [done|]. unfold left_pairs.
  apply fst_zip. rewrite shifted_length by done. done.
Qed.

Lemma right_pairs_fst row : fst <$> right_pairs row = reverse row.
Proof.
  destruct row as [|s row]; [done|]. unfold right_pairs.
  apply fst_zip. rewrite !length_reverse, shifted_length by done. done.
Qed.

Lemma texts_app l1 l2 : texts (l1 ++ l2) = texts l1 ++ texts l2.
Proof. unfold texts. apply omap_app. Qed.

Lemma texts_draw_pairs h pairs :
  texts (draw_pairs h pairs) = (fst <$> pairs) ≫= segment_texts.
Proof.
  unfold draw_pairs. induction pairs as [|[c n] pairs IH]; [done|].
  rewrite fmap_cons, concat_cons, texts_app, IH. simpl.
  f_equal. unfold Segment_draw_parts, segment_texts.
  by destruct (Segment_right c).
Qed.

Lemma printed_texts line : printed line = concat (texts line).
Proof.
  unfold printed, texts. induction line as [|[c|t] line IH]; [done|exact IH|].
  simpl. f_equal. exact IH.
Qed.

Lemma segment_texts_length row :
  Z.of_nat (length (concat (row ≫= segment_texts))) = sum_width row.
Proof.
  rewrite sum_width_spec.
  induction row as [|s row IH]; [done|].
  change ((s :: row) ≫= segment_texts)
    with (segment_texts s ++ (row ≫= segment_texts)).
  rewrite concat_app, length_app, Nat2Z.inj_add, IH. simpl. f_equal.
  unfold segment_texts, spec_width.
  destruct (Segment_right s); simpl; rewrite app_nil_r, length_app; lia.
Qed.

Lemma sum_width_reverse row : sum_width (reverse row) = sum_width row.
Proof.
  induction row as [|s row IH]; [done|].
  rewrite reverse_cons. simpl. rewrite <- IH.
  generalize (reverse row). intros l.
  induction l as [|x l IHl]; simpl; [lia|]. rewrite IHl. lia.
Qed.

















(** C3 (as the code has it): in the pairs the right row is drawn from,
    the segment appended at position [k] stands at position
    [length row - 1 - k] (the row is walked from its last segment to its
    first) and its partner is the segment appended after it, which the
    walk has met just before; the last segment appended has no partner. *)
Theorem right_pairs_successor (row : list Segment) (k : nat) (c : Segment) :
  row !! k = Some c →
  right_pairs row !! (length row - S k) = Some (c, row !! S k).
Proof.
  intros Hk. unfold right_pairs.
  assert (Hlt : k < length row) by (by eapply lookup_lt_Some).
  assert (Hne : row ≠ []) by (intros ->; simpl in Hlt; lia).
  apply lookup_zip_with_Some. exists c, (row !! S k).
  split; [done|]. split.
  - rewrite reverse_lookup by lia.
    replace (length row - S (length row - S k)) with k by lia. done.
  - rewrite reverse_lookup by (rewrite shifted_length by done; lia).
    rewrite shifted_length by done.
    replace (length row - S (length row - S k)) with k by lia.
    unfold shifted.
    destruct (decide (S k < length row)) as [Hs|Hs].
    + rewrite lookup_app_l by (rewrite length_fmap, length_drop; lia).
      rewrite list_lookup_fmap, lookup_drop. simpl.
      destruct (lookup_lt_is_Some_2 row (S k) Hs) as [x Hx].
      by rewrite Hx.
    + rewrite lookup_app_r by (rewrite length_fmap, length_drop; lia).
      rewrite length_fmap, length_drop.
      replace (k - (length row - 1)) with 0 by lia. simpl.
      f_equal. symmetry. apply lookup_ge_None. lia.
Qed.

Lemma right_pairs_successor_witness :
  [seg_time; seg_git] !! 1 = Some seg_git
  ∧ right_pairs [seg_time; seg_git] !! 0 = Some (seg_git, None).
Proof.
  split; [reflexivity|].
  apply (right_pairs_successor [seg_time; seg_git] 1 seg_git). reflexivity.
Defined.

(** C3 fails as worded: with the clock appended first and the branch
    second, the branch (appended last) is the one drawn with no partner,
    and the clock is drawn with the branch as its partner. *)
Lemma right_pairs_first_appended_has_partner :
  right_pairs [seg_time; seg_git]
  = [(seg_git, None); (seg_time, Some seg_git)]
  ∧ right_pairs_claimed [seg_time; seg_git]
    = [(seg_git, Some seg_time); (seg_time, None)]
  ∧ right_pairs [seg_time; seg_git] ≠ right_pairs_claimed [seg_time; seg_git].
Proof. split; [reflexivity|]. split; [reflexivity|]. discriminate. Qed.

(** C10 (as the code has it): a separator foreground of [0] or [None]
    gives the segment its own background as separator foreground, a
    separator that is empty or [None] gives it the default separator of
    its [Powerline]; and the separator foreground of a segment is [0]
    only when its background is [0]. *)
Theorem Segment_init_falsy h powerline content fg bg separator separator_fg
    right :
  let s := Segment_init h powerline content fg bg separator separator_fg right in
  ((separator_fg = None ∨ separator_fg = Some 0%Z) →
   Segment_separator_fg s = bg)
  ∧ ((separator = None ∨ separator = Some []) →
     Segment_separator s = Powerline_separator (h powerline))
  ∧ (Segment_separator_fg s = 0%Z → bg = 0%Z).
Proof.
  simpl. split; [|split].
  - by intros [-> | ->].
  - by intros [-> | ->].
  - unfold or_int. destruct separator_fg as [z|]; [|done].
    destruct (z =? 0)%Z eqn:Hz; [done|]. intros ->. done.
Qed.

Lemma Segment_init_falsy_witness :
  let s := Segment_init example_heap 0 (u " x ") 15 0 (Some []) (Some 0%Z) false in
  Segment_separator_fg s = 0%Z
  ∧ Segment_separator s = [0xE0B0%N]
  ∧ (Segment_separator_fg s = 0%Z → 0%Z = 0%Z).
Proof.
  pose proof (Segment_init_falsy example_heap 0 (u " x ") 15 0 (Some [])
                (Some 0%Z) false) as (H1 & H2 & H3).
  split; [|split].
  - apply H1. right. reflexivity.
  - apply H2. right. reflexivity.
  - exact H3.
Defined.

(** C10 fails as worded: a segment on background [0] built with the
    separator foreground [0] (or with none) has palette index [0] as its
    separator foreground. *)
Lemma Segment_init_zero_separator_fg :
  Segment_separator_fg
    (Segment_init example_heap 0 (u " x ") 15 0 None (Some 0%Z) false) = 0%Z
  ∧ Segment_separator_fg
      (Segment_init example_heap 0 (u " x ") 15 0 None None false) = 0%Z.
Proof. split; reflexivity. Qed.

(** ** The working directory *)

Lemma Powerline_append_lookup l seg (h : heap) :
  Powerline_append l seg h l
  = with_segments (h l) (Powerline_segments (h l) ++ [seg]).
Proof. unfold Powerline_append. apply fn_lookup_insert. Qed.

Lemma Powerline_append_lookup_ne l l' seg (h : heap) :
  l ≠ l' → Powerline_append l seg h l' = h l'.
Proof. intros Hne. unfold Powerline_append. by apply fn_lookup_insert_ne. Qed.

Lemma Powerline_append_right_lookup l seg (h : heap) :
  Powerline_append_right l seg h l
  = with_segments_right (h l) (Powerline_segments_right (h l) ++ [seg]).
Proof. unfold Powerline_append_right. apply fn_lookup_insert. Qed.

Lemma Powerline_append_right_lookup_ne l l' seg (h : heap) :
  l ≠ l' → Powerline_append_right l seg h l' = h l'.
Proof.
  intros Hne. unfold Powerline_append_right. by apply fn_lookup_insert_ne.
Qed.

(** The loop of [add_cwd_segment] appends one path segment for each
    index, drawn with the separators of the instance, and touches
    nothing else. *)
Lemma for_range_add_path_segment powerline names ns :
  Forall (fun n => is_Some (names !! n)) ns →
  ∀ st, ∃ h',
    for_range ns (add_path_segment powerline names) st
    = (Ok tt, mkState h' (st_p st) (st_log st))
    ∧ h' powerline
      = with_segments (st_heap st powerline)
          (Powerline_segments (st_heap st powerline)
             ++ ((fun n =>
                    path_segment powerline (st_heap st powerline)
                      (default [] (names !! n))
                      (Z.of_nat n =? Z.of_nat (length names) - 2)%Z) <$> ns)).
Proof.
  induction 1 as [|n ns [name Hname] _ IH]; intros st.
  - exists (st_heap st). split; [by destruct st|].
    simpl. rewrite app_nil_r. by destruct (st_heap st powerline).
  - set (seg := path_segment powerline (st_heap st powerline) name
                  (Z.of_nat n =? Z.of_nat (length names) - 2)%Z).
    set (st1 := mkState (Powerline_append powerline seg (st_heap st))
                  (st_p st) (st_log st)).
    destruct (IH st1) as (h' & Hrun & Hh').
    exists h'. split.
    + simpl. unfold bind at 1. unfold add_path_segment at 1.
      unfold bind, get_heap, update_heap. rewrite Hname.
      replace (Segment_init _ _ _ _ _ _ _ _) with seg; [exact Hrun|].
      unfold seg, path_segment, Segment_init. simpl.
      by destruct (Z.of_nat n =? Z.of_nat (length names) - 2)%Z.
    + rewrite Hh'. unfold st1. simpl. rewrite Powerline_append_lookup.
      rewrite Hname. simpl. rewrite <- app_assoc. reflexivity.
Qed.

(** C5 (as the code has it): a path of six components under the maximum
    depth 4 is collapsed to its first two components, the ellipsis and
    its last two components; the left row then receives five segments:
    four path segments (three with the thin separator, the fourth with
    the thick one) and after them the segment of the current directory. *)
Theorem add_cwd_segment_six W powerline cwd st n0 n1 n2 n3 n4 n5 :
  cwd_components W cwd = Ok [n0; n1; n2; n3; n4; n5] →
  let pw := st_heap st powerline in
  cwd_names W cwd 4 = Ok [n0; n1; [0x2026%N]; n4; n5]
  ∧ ∃ st',
      add_cwd_segment W powerline cwd 4 false st = (Ok tt, st')
      ∧ Powerline_segments (st_heap st' powerline)
        = Powerline_segments pw
            ++ [ path_segment powerline pw n0 false;
                 path_segment powerline pw n1 false;
                 path_segment powerline pw [0x2026%N] false;
                 path_segment powerline pw n4 true;
                 cwd_segment powerline pw n5 ].
Proof.
  intros Hc pw.
  assert (Hn : cwd_names W cwd 4 = Ok [n0; n1; [0x2026%N]; n4; n5]).
  { unfold cwd_names. rewrite Hc. reflexivity. }
  split; [exact Hn|].
  unfold add_cwd_segment, lift. unfold bind at 1. rewrite Hn.
  set (names := [n0; n1; [0x2026%N]; n4; n5]).
  destruct (for_range_add_path_segment powerline names [0; 1; 2; 3]) with (st := st)
    as (h' & Hrun & Hh').
  { repeat constructor; eexists; reflexivity. }
  unfold bind at 1. change (seq 0 (length (slice_to names (-1)))) with [0; 1; 2; 3].
  rewrite Hrun. unfold bind, get_heap, update_heap. simpl.
  eexists. split; [reflexivity|]. simpl.
  rewrite Powerline_append_lookup. unfold Segment_init. simpl.
  rewrite Hh'. simpl. rewrite <- app_assoc. reflexivity.
Qed.

Lemma add_cwd_segment_six_witness :
  cwd_components plain_world (Some (u "/a/b/c/d/e/f"))
  = Ok [u "a"; u "b"; u "c"; u "d"; u "e"; u "f"]
  ∧ let pw := st_heap example_state 0 in
    cwd_names plain_world (Some (u "/a/b/c/d/e/f")) 4
    = Ok [u "a"; u "b"; [0x2026%N]; u "e"; u "f"]
    ∧ ∃ st',
        add_cwd_segment plain_world 0 (Some (u "/a/b/c/d/e/f")) 4 false
          example_state = (Ok tt, st')
        ∧ Powerline_segments (st_heap st' 0)
          = Powerline_segments pw
              ++ [ path_segment 0 pw (u "a") false;
                   path_segment 0 pw (u "b") false;
                   path_segment 0 pw [0x2026%N] false;
                   path_segment 0 pw (u "e") true;
                   cwd_segment 0 pw (u "f") ].
Proof.
  split; [reflexivity|].
  apply (add_cwd_segment_six plain_world 0 (Some (u "/a/b/c/d/e/f"))
           example_state (u "a") (u "b") (u "c") (u "d") (u "e") (u "f")).
  reflexivity.
Defined.

(** C5 fails as worded: for [/a/b/c/d/e/f] the left row, empty before
    the call, holds five segments after it, so four segments (not three)
    stand before the segment of the current directory. *)
Lemma add_cwd_segment_six_four_before_last :
  cwd_components plain_world (Some (u "/a/b/c/d/e/f"))
  = Ok [u "a"; u "b"; u "c"; u "d"; u "e"; u "f"]
  ∧ let st' := snd (add_cwd_segment plain_world 0 (Some (u "/a/b/c/d/e/f")) 4
                      false example_state) in
    Segment_content <$> Powerline_segments (st_heap st' 0)
    = [u " a "; u " b "; [32; 0x2026; 32]%N; u " e "; u " f "]
    ∧ length (Powerline_segments (st_heap st' 0)) - 1 = 4.
Proof. vm_compute. repeat split. Qed.

(** ** Decimal numbers *)

Lemma ascii_decimal_digit d : (d < 10)%N → ascii_decimal (48 + d) = Some d.
Proof.
  intros Hd. unfold ascii_decimal.
  replace ((48 <=? 48 + d) && (48 + d <=? 57))%N with true.
  - f_equal. lia.
  - symmetry. apply andb_true_iff. split; apply N.leb_le; lia.
Qed.

Lemma dec_digits_ascii fuel : ∀ n rest,
  Forall ascii_digit rest → Forall ascii_digit (dec_digits fuel n rest).
Proof.
  induction fuel as [|f IH]; intros n rest Hrest; simpl; [done|].
  assert (Hd : ascii_digit (48 + n mod 10)%N).
  { unfold ascii_digit. pose proof (N.mod_lt n 10 ltac:(lia)) as Hm.
    revert Hm. generalize (n mod 10)%N. intros m Hm. lia. }
  destruct (n <? 10)%N; [by constructor|]. apply IH. by constructor.
Qed.

Lemma dec_digits_cons fuel : ∀ n rest,
  ∃ c s, dec_digits (S fuel) n rest = c :: s.
Proof.
  induction fuel as [|f IH]; intros n rest.
  - simpl. destruct (n <? 10)%N; eauto.
  - change (dec_digits (S (S f)) n rest)
      with (if (n <? 10)%N then (48 + n mod 10)%N :: rest
            else dec_digits (S f) (n / 10)%N ((48 + n mod 10)%N :: rest)).
    destruct (n <? 10)%N; eauto.
Qed.

Section DecimalFacts.
Variable decimal : N -> option N.
Hypothesis Htable : table_ok decimal.

Lemma decimal_of_digit d : (d < 10)%N → decimal (48 + d) = Some d.
Proof.
  intros Hd. rewrite (table_ascii _ Htable) by lia.
  by apply ascii_decimal_digit.
Qed.

Lemma dec_digits_value fuel : ∀ n rest b,
  (n < 2 ^ N.of_nat (S fuel))%N →
  digits_value decimal 0 b (dec_digits (S fuel) n rest)
  = digits_value decimal n true rest.
Proof.
  induction fuel as [|f IH]; intros n rest b Hn.
  - simpl in Hn. assert (Hlt : (n <? 10)%N = true) by (apply N.ltb_lt; lia).
    simpl. rewrite Hlt. simpl.
    rewrite decimal_of_digit by (apply N.mod_lt; lia).
    rewrite N.mod_small by lia. done.
  - change (dec_digits (S (S f)) n rest)
      with (if (n <? 10)%N then (48 + n mod 10)%N :: rest
            else dec_digits (S f) (n / 10)%N ((48 + n mod 10)%N :: rest)).
    destruct (n <? 10)%N eqn:Hlt.
    + apply N.ltb_lt in Hlt. simpl.
      rewrite decimal_of_digit by (apply N.mod_lt; lia).
      rewrite N.mod_small by lia. done.
    + rewrite IH.
      * simpl. rewrite decimal_of_digit by (apply N.mod_lt; lia).
        f_equal. pose proof (N.div_mod n 10). lia.
      * apply N.ltb_ge in Hlt.
        rewrite Nat2N.inj_succ, N.pow_succ_r' in Hn.
        apply N.Div0.div_lt_upper_bound. lia.
Qed.

Lemma dec_N_value n : digits_value decimal 0 false (dec_N n) = Some n.
Proof.
  unfold dec_N. rewrite dec_digits_value; [done|].
  rewrite Nat2N.inj_succ, N2Nat.id.
  destruct n as [|p]; [done|].
  apply N.log2_spec. lia.
Qed.

Lemma isdigit_ascii_digit c : ascii_digit c → isdigit decimal c = true.
Proof.
  unfold ascii_digit. intros Hc. unfold isdigit. apply bool_decide_eq_true.
  rewrite (table_ascii _ Htable) by lia. unfold ascii_decimal.
  replace ((48 <=? c) && (c <=? 57))%N with true; [by eexists|].
  symmetry. apply andb_true_iff. split; apply N.leb_le; lia.
Qed.

Lemma filter_isdigit_digits ds :
  Forall ascii_digit ds → filter (fun c => isdigit decimal c = true) ds = ds.
Proof.
  induction 1 as [|c ds Hc _ IH]; [done|].
  rewrite filter_cons_True by (by apply isdigit_ascii_digit). by rewrite IH.
Qed.
End DecimalFacts.

Lemma dec_digits_length fuel : ∀ n rest,
  length (dec_digits fuel n rest) ≤ fuel + length rest.
Proof.
  induction fuel as [|f IH]; intros n rest; simpl; [done|].
  destruct (n <? 10)%N; simpl; [lia|].
  etrans; [apply IH|]. simpl. lia.
Qed.

(** A number that an index can hold has far fewer digits than [int()]
    accepts. *)
Lemma dec_nat_short k :
  (Z.of_nat k <= ssize_max + 1)%Z →
  (Z.of_nat (length (dec (Z.of_nat k))) <= max_str_digits)%Z.
Proof.
  intros Hk. unfold dec.
  replace (Z.of_nat k <? 0)%Z with false by (symmetry; apply Z.ltb_ge; lia).
  unfold dec_N.
  pose proof (dec_digits_length
                (S (N.to_nat (N.log2 (Z.to_N (Z.of_nat k)))))
                (Z.to_N (Z.of_nat k)) []) as Hlen.
  assert (Hlog : (Z.to_N (Z.of_nat k) <= 9223372036854775808)%N)
    by (unfold ssize_max in Hk; lia).
  apply N.log2_le_mono in Hlog.
  change (N.log2 9223372036854775808) with 63%N in Hlog.
  change (length (@nil N)) with 0 in Hlen. unfold max_str_digits.
  revert Hlen Hlog. generalize (N.log2 (Z.to_N (Z.of_nat k))). intros m.
  generalize (length (dec_digits (S (N.to_nat m)) (Z.to_N (Z.of_nat k)) [])).
  lia.
Qed.

Lemma lstrip_with_all sp s :
  Forall (fun c => sp c = false) s → lstrip_with sp s = s.
Proof. destruct 1 as [|c s Hc _]; simpl; [done|]. by rewrite Hc. Qed.

Lemma strip_with_all sp s :
  Forall (fun c => sp c = false) s → strip_with sp s = s.
Proof.
  intros Hs. unfold strip_with, rstrip_with.
  rewrite (lstrip_with_all sp s) by done.
  rewrite lstrip_with_all by (by apply Forall_reverse).
  apply reverse_involutive.
Qed.

Lemma strip_with_trailing sp s c :
  sp c = true → Forall (fun c => sp c = false) s →
  strip_with sp (s ++ [c]) = s.
Proof.
  intros Hc Hs. unfold strip_with, rstrip_with.
  destruct Hs as [|x s Hx Hs].
  - simpl. by rewrite Hc.
  - change (lstrip_with sp ((x :: s) ++ [c]))
      with (if sp x then lstrip_with sp (s ++ [c]) else (x :: s) ++ [c]).
    rewrite Hx, reverse_snoc. simpl. rewrite Hc.
    rewrite lstrip_with_all by (apply Forall_reverse; by constructor).
    apply reverse_involutive.
Qed.

Ltac split_comparisons :=
  repeat match goal with
         | |- context [(?a =? ?b)%N] =>
             destruct (N.eqb_spec a b); try lia; simpl
         | |- context [(?a <=? ?b)%N] =>
             destruct (N.leb_spec a b); try lia; simpl
         end.

Lemma ascii_digit_not_space c :
  ascii_digit c → ascii_space c = false ∧ unicode_space c = false.
Proof.
  unfold ascii_digit. intros Hc.
  assert (Ha : ascii_space c = false).
  { unfold ascii_space, eqc. split_comparisons; simpl; try done; lia. }
  split; [exact Ha|].
  unfold unicode_space, eqc. rewrite Ha.
  split_comparisons; simpl; try done; lia.
Qed.

Section DecimalStrings.
Variable decimal : N -> option N.
Hypothesis Htable : table_ok decimal.

(** [int()] reads back what ["%d"] writes for a natural number, unless
    it has more digits than [int()] accepts. *)
Lemma int_of_dec_N n :
  int_of_str decimal (dec_N n)
  = if (max_str_digits <? Z.of_nat (length (dec_N n)))%Z then Raise ValueError
    else Ok (Z.of_N n).
Proof.
  unfold int_of_str.
  assert (Hd : Forall ascii_digit (dec_N n)) by (by apply dec_digits_ascii).
  rewrite strip_with_all.
  - destruct (dec_digits_cons (N.to_nat (N.log2 n)) n []) as (c & s & Hcs).
    pose proof (dec_N_value decimal Htable n) as Hv.
    unfold dec_N in *. rewrite Hcs in *.
    pose proof Hd as Hds.
    apply Forall_cons in Hd as [Hc _]. unfold ascii_digit in Hc.
    unfold eqc.
    destruct (N.eqb_spec c 45) as [->|_]; [lia|].
    destruct (N.eqb_spec c 43) as [->|_]; [lia|].
    by rewrite Hv, (filter_isdigit_digits decimal Htable _ Hds).
  - eapply Forall_impl; [exact Hd|]. intros c Hc. unfold int_space.
    destruct (ascii_digit_not_space c Hc) as [-> ->]. simpl.
    by rewrite andb_false_r.
Qed.

Lemma py_int_dec_nat k :
  py_int decimal (VStr (dec (Z.of_nat k)))
  = if (max_str_digits <? Z.of_nat (length (dec (Z.of_nat k))))%Z
    then Raise ValueError
    else Ok (Z.of_nat k).
Proof.
  unfold dec.
  replace (Z.of_nat k <? 0)%Z with false by (symmetry; apply Z.ltb_ge; lia).
  simpl. rewrite int_of_dec_N.
  destruct (max_str_digits <? _)%Z; [done|]. f_equal. lia.
Qed.

(** A count that an index can hold is read back. *)
Lemma py_int_dec_short k :
  (Z.of_nat k <= ssize_max + 1)%Z →
  py_int decimal (VStr (dec (Z.of_nat k))) = Ok (Z.of_nat k).
Proof.
  intros Hk. rewrite py_int_dec_nat.
  replace (max_str_digits <? _)%Z with false; [done|].
  symmetry. apply Z.ltb_ge. by apply dec_nat_short.
Qed.

(** What [grep -c] writes, stripped, is the number without the newline. *)
Lemma strip_counted sp k :
  sp 10%N = true → (∀ c, ascii_digit c → sp c = false) →
  strip_with sp (dec (Z.of_nat k) ++ [10%N]) = dec (Z.of_nat k)
  ∧ strip_with sp (dec (Z.of_nat k)) = dec (Z.of_nat k).
Proof.
  intros Hnl Hsp.
  assert (Hd : Forall (fun c => sp c = false) (dec (Z.of_nat k))).
  { unfold dec.
    replace (Z.of_nat k <? 0)%Z with false by (symmetry; apply Z.ltb_ge; lia).
    eapply Forall_impl; [by apply dec_digits_ascii|]. done. }
  split; [by apply strip_with_trailing | by apply strip_with_all].
Qed.

Lemma dec_nat_cons k : ∃ c s, dec (Z.of_nat k) = c :: s.
Proof.
  unfold dec.
  replace (Z.of_nat k <? 0)%Z with false by (symmetry; apply Z.ltb_ge; lia).
  apply dec_digits_cons.
Qed.
End DecimalStrings.

(** ** Running the monad *)

Lemma bind_ok {A B} (m : M A) (k : A → M B) st a st' :
  m st = (Ok a, st') → bind m k st = k a st'.
Proof. intros H. unfold bind. by rewrite H. Qed.

Lemma bind_raise {A B} (m : M A) (k : A → M B) st e st' :
  m st = (Raise e, st') → bind m k st = (Raise e, st').
Proof. intros H. unfold bind. by rewrite H. Qed.

Lemma Popen_ok W c st o :
  World_start W (st_log st) c = inl o →
  Popen W c st = (Ok o, mkState (st_heap st) (st_p st) (st_log st ++ [c])).
Proof. intros H. unfold Popen. by rewrite H. Qed.

Lemma Popen_fail W c st f :
  World_start W (st_log st) c = inr f →
  Popen W c st
  = (Raise (failure_exn f),
     mkState (st_heap st) (st_p st) (st_log st ++ [c])).
Proof. intros H. unfold Popen. by rewrite H. Qed.

(** One step of a run: a process that starts. *)
Ltac popen_ok H :=
  erewrite bind_ok; [|apply Popen_ok; simpl st_log; exact H].

(** ** Subversion *)

Lemma str_split_length sep s : length (str_split sep s) ≤ S (length s).
Proof.
  induction s as [|c s IH]; [done|]. cbn [str_split].
  destruct (eqc c sep); [simpl; lia|].
  destruct (str_split sep s); simpl in *; lia.
Qed.

Lemma text_lines_length s : length (text_lines s) ≤ S (length s).
Proof.
  unfold text_lines. pose proof (str_split_length 10 s) as Hs.
  destruct (reverse (str_split 10 s)) as [|[|c l] r] eqn:Hr; try done.
  rewrite length_reverse.
  assert (length (reverse (str_split 10 s)) = S (length r)) by (by rewrite Hr).
  rewrite length_reverse in *. lia.
Qed.

(** What [grep -c] counts in the output of a process is a number that
    an index can hold. *)
Lemma grep_count_fits (sel : str → bool) (o : output) :
  (Z.of_nat (length (filter (fun l => sel l = true) (text_lines (stdout o))))
   <= ssize_max + 1)%Z.
Proof.
  pose proof (output_fits o) as Hf. apply andb_True in Hf as [Hf _].
  unfold fits in Hf. apply Is_true_true, Z.leb_le in Hf.
  pose proof (length_filter (fun l => sel l = true) (text_lines (stdout o))).
  pose proof (text_lines_length (stdout o)). lia.
Qed.

(** C4 (as the code has it): when [svn status] writes no error output
    (and the three processes start), the detector counts the status
    lines whose first character is one of [A C D I M R ! ~] or a
    backslash; a count above zero appends one segment showing the count
    to the left row, a count of zero appends nothing, and the right row
    is never touched. *)
Theorem add_svn_segment_count W powerline cwd st o1 o2 o3 :
  table_ok (World_decimal W) →
  World_start W (st_log st) SvnStatus = inl o1 →
  bytes_strip (stderr o1) = [] →
  World_start W (st_log st ++ [SvnStatus]) SvnStatus = inl o2 →
  World_start W ((st_log st ++ [SvnStatus]) ++ [SvnStatus]) GrepCount = inl o3 →
  let count :=
    length (filter (fun l => svn_changed l = true) (text_lines (stdout o2))) in
  let pw := st_heap st powerline in
  ∃ st',
    add_svn_segment W powerline cwd st = (Ok (Some true), st')
    ∧ Powerline_segments (st_heap st' powerline)
      = Powerline_segments pw
          ++ (if 0 <? count then [svn_segment powerline pw count] else [])
    ∧ ∀ l, Powerline_segments_right (st_heap st' l)
           = Powerline_segments_right (st_heap st l).
Proof.
  intros Htable H1 He H2 H3 count pw.
  unfold add_svn_segment.
  popen_ok H1. rewrite He. change (negb (length (@nil N) =? 0)) with false. cbv iota.
  unfold try_except.
  popen_ok H2. popen_ok H3. simpl st_heap. simpl st_p. simpl st_log.
  unfold grep_c. fold count.
  destruct (strip_counted ascii_space count eq_refl
              (fun c Hc => proj1 (ascii_digit_not_space c Hc))) as [Hs _].
  destruct (strip_counted unicode_space count eq_refl
              (fun c Hc => proj2 (ascii_digit_not_space c Hc))) as [_ Hu].
  unfold bytes_strip, str_strip. rewrite Hs, Hu.
  destruct (dec_nat_cons count) as (c & s & Hcs).
  replace (0 <? length (dec (Z.of_nat count))) with true
    by (by rewrite Hcs).
  unfold bind at 1. unfold bind at 1. unfold lift.
  rewrite (py_int_dec_short _ Htable count (grep_count_fits _ o2)).
  destruct count as [|k].
  - simpl. eexists. split; [reflexivity|]. simpl.
    split; [by rewrite app_nil_r|done].
  - replace (0 <? Z.of_nat (S k))%Z with true
      by (symmetry; apply Z.ltb_lt; lia).
    unfold bind, get_heap, update_heap, ret. simpl.
    eexists. split; [reflexivity|]. simpl. split.
    + rewrite Powerline_append_lookup. reflexivity.
    + intros l. destruct (decide (powerline = l)) as [->|Hne].
      * rewrite Powerline_append_lookup. reflexivity.
      * by rewrite Powerline_append_lookup_ne.
Qed.

Lemma ascii_table_ok : table_ok ascii_decimal.
Proof.
  split; [done|].
  intros c Hsp. unfold ascii_decimal.
  destruct ((48 <=? c) && (c <=? 57))%N eqn:E; [|done].
  apply andb_true_iff in E as [E1 E2]. apply N.leb_le in E1, E2.
  destruct (ascii_digit_not_space c) as [_ Hn]; [done|]. congruence.
Qed.

Lemma add_svn_segment_count_witness :
  table_ok ascii_decimal
  ∧ bytes_strip (stderr (mkOutput svn_status_text [] I)) = []
  ∧ ∃ st',
      add_svn_segment svn_changes_world 0 None example_state
      = (Ok (Some true), st')
      ∧ Powerline_segments (st_heap st' 0)
        = [svn_segment 0 example_powerline 2]
      ∧ ∀ l, Powerline_segments_right (st_heap st' l)
             = Powerline_segments_right (st_heap example_state l).
Proof.
  split; [exact ascii_table_ok|]. split; [reflexivity|].
  exact (add_svn_segment_count svn_changes_world 0 None example_state
           (mkOutput svn_status_text [] I) (mkOutput svn_status_text [] I)
           (mkOutput [] [] I) ascii_table_ok eq_refl eq_refl eq_refl eq_refl).
Defined.

(** C4 fails as worded: for a working copy whose only status line is
    [X       vendor], one line has its first column in the set
    [A C D I M R X], yet no segment is appended. *)
Lemma add_svn_segment_skips_externals :
  length (filter (fun l => svn_claimed l = true)
            (text_lines (u "X       vendor" ++ [10%N]))) = 1
  ∧ fst (add_svn_segment svn_externals_world 0 None example_state)
    = Ok (Some true)
  ∧ Powerline_segments
      (st_heap (snd (add_svn_segment svn_externals_world 0 None example_state))
         0) = [].
Proof. vm_compute. repeat split. Qed.

(** ** The status of git *)

Lemma startswith_app pre s : startswith pre (pre ++ s) = true.
Proof.
  induction pre as [|c pre IH]; [by destruct s|].
  simpl. unfold eqc. by rewrite N.eqb_refl, IH.
Qed.

Lemma for_lines_cons {S} (step : S → str → result S) acc l ls :
  for_lines step acc (l :: ls)
  = match step acc l with
    | Ok acc' => for_lines step acc' ls
    | Raise e => Raise e
    end.
Proof. reflexivity. Qed.

Section GitFacts.
Variable decimal : N -> option N.
Hypothesis Htable : table_ok decimal.

Lemma isdigit_ascii c :
  (c < 128)%N → isdigit decimal c = isdigit ascii_decimal c.
Proof. intros Hc. unfold isdigit. by rewrite (table_ascii _ Htable). Qed.

Lemma digits_comm_ascii s :
  Forall (fun c => (c < 128)%N) s →
  digits_comm decimal s = digits_comm ascii_decimal s.
Proof.
  induction 1 as [|c s Hc _ IH]; [done|].
  simpl. by rewrite isdigit_ascii, IH.
Qed.

Lemma skip_digits_comm_ascii s :
  Forall (fun c => (c < 128)%N) s →
  skip_digits_comm decimal s = skip_digits_comm ascii_decimal s.
Proof.
  intros Hs. induction Hs as [|c s Hc Hs IH]; [done|].
  change (skip_digits_comm decimal (c :: s))
    with (match digits_comm decimal (c :: s) with
          | Some ds => Some ds
          | None => if eqc c 10 then None else skip_digits_comm decimal s
          end).
  rewrite digits_comm_ascii by (by constructor). by rewrite IH.
Qed.

Lemma match_here_ascii s :
  Forall (fun c => (c < 128)%N) s →
  match_here decimal s = match_here ascii_decimal s.
Proof.
  intros Hs. unfold match_here.
  rewrite !skip_digits_comm_ascii; [done| |];
    repeat apply Forall_drop; done.
Qed.

Lemma origin_status_ascii line :
  Forall (fun c => (c < 128)%N) line →
  origin_status decimal line = origin_status ascii_decimal line.
Proof.
  intros Hs. induction Hs as [|c s Hc Hs IH]; [done|].
  change (origin_status decimal (c :: s))
    with (match match_here decimal (c :: s) with
          | Some m => Some m
          | None => origin_status decimal s
          end).
  rewrite match_here_ascii by (by constructor). by rewrite IH.
Qed.

(** The second group of a match is a run of digits. *)
Lemma digits_comm_digits s ds :
  digits_comm decimal s = Some ds →
  ds ≠ [] ∧ Forall (fun c => isdigit decimal c = true) ds.
Proof.
  revert ds. induction s as [|c s IH]; intros ds; [done|].
  change (digits_comm decimal (c :: s))
    with (if isdigit decimal c then
            match digits_comm decimal s with
            | Some ds => Some (c :: ds)
            | None => if startswith (u " comm") s then Some [c] else None
            end
          else None).
  destruct (isdigit decimal c) eqn:Hc; [|done].
  destruct (digits_comm decimal s) as [ds'|].
  - intros [= <-]. split; [done|]. constructor; [done|]. by apply IH.
  - destruct (startswith (u " comm") s); [|done].
    intros [= <-]. split; [done|]. by repeat constructor.
Qed.

Lemma skip_digits_comm_digits s ds :
  skip_digits_comm decimal s = Some ds →
  ds ≠ [] ∧ Forall (fun c => isdigit decimal c = true) ds.
Proof.
  induction s as [|c s IH]; [done|].
  change (skip_digits_comm decimal (c :: s))
    with (match digits_comm decimal (c :: s) with
          | Some ds => Some ds
          | None => if eqc c 10 then None else skip_digits_comm decimal s
          end).
  destruct (digits_comm decimal (c :: s)) as [ds'|] eqn:Hd.
  - intros [= <-]. by eapply digits_comm_digits.
  - destruct (eqc c 10); [done|]. exact IH.
Qed.

Lemma origin_status_digits line word ds :
  origin_status decimal line = Some (word, ds) →
  ds ≠ [] ∧ Forall (fun c => isdigit decimal c = true) ds.
Proof.
  induction line as [|c s IH].
  - simpl. unfold match_here. simpl. done.
  - change (origin_status decimal (c :: s))
      with (match match_here decimal (c :: s) with
            | Some m => Some m
            | None => origin_status decimal s
            end).
    destruct (match_here decimal (c :: s)) as [m|] eqn:Hm; [|exact IH].
    intros [= Hmeq]. subst m. unfold match_here in Hm.
    destruct (startswith _ (c :: s)); [|done].
    repeat match type of Hm with
           | context [if ?b then _ else _] => destruct b
           | context [skip_digits_comm decimal ?x] =>
               let H := fresh "Hs" in
               destruct (skip_digits_comm decimal x) eqn:H
           end;
      simplify_eq; by eapply skip_digits_comm_digits.
Qed.

Lemma digits_value_digits ds : ∀ acc b,
  Forall (fun c => isdigit decimal c = true) ds → (ds ≠ [] ∨ b = true) →
  ∃ n, digits_value decimal acc b ds = Some n.
Proof.
  induction ds as [|c ds IH]; intros acc b Hds Hne.
  - destruct Hne as [? | ->]; [done|]. by eexists.
  - apply Forall_cons in Hds as [Hc Hds]. simpl.
    unfold isdigit in Hc. apply bool_decide_eq_true in Hc as [d Hd].
    rewrite Hd. apply IH; [done|by right].
Qed.

(** [int()] accepts the second group of a match, unless it has more
    digits than [int()] converts. *)
Lemma py_int_digits ds :
  ds ≠ [] → Forall (fun c => isdigit decimal c = true) ds →
  ∃ n, py_int decimal (VStr ds)
       = if (max_str_digits <? Z.of_nat (length ds))%Z then Raise ValueError
         else Ok n.
Proof.
  intros Hne Hds. simpl. unfold int_of_str.
  assert (Hsp : Forall (fun c => int_space c = false) ds).
  { eapply Forall_impl; [exact Hds|]. intros c Hc. simpl in Hc.
    unfold isdigit in Hc. apply bool_decide_eq_true in Hc as [d Hd].
    destruct (unicode_space c) eqn:Hu.
    - rewrite (table_space _ Htable c Hu) in Hd. done.
    - unfold int_space. rewrite Hu, andb_false_r, orb_false_r.
      unfold unicode_space in Hu. by destruct (ascii_space c). }
  rewrite strip_with_all by done.
  assert (Hall : filter (fun c => isdigit decimal c = true) ds = ds).
  { clear Hne Hsp. induction Hds as [|x l Hx _ IH]; [done|].
    rewrite filter_cons_True by done. by rewrite IH. }
  destruct ds as [|c ds]; [done|].
  apply Forall_cons in Hds as Hds'. destruct Hds' as [Hc _].
  unfold isdigit in Hc. apply bool_decide_eq_true in Hc as [d Hd].
  unfold eqc.
  destruct (N.eqb_spec c 45) as [->|_].
  { by rewrite (table_ascii _ Htable) in Hd. }
  destruct (N.eqb_spec c 43) as [->|_].
  { by rewrite (table_ascii _ Htable) in Hd. }
  destruct (digits_value_digits (c :: ds) 0%N false Hds) as [n Hn];
    [by left|].
  rewrite Hn, Hall. by eexists.
Qed.

(** A turn of the loop: it raises [ValueError] when the count on the
    line is too long for [int()], and otherwise updates the two flags. *)
Lemma git_status_line_flags p q pos line :
  if count_too_long decimal line
  then git_status_line decimal (p, q, pos) line = Raise ValueError
  else ∃ pos',
         git_status_line decimal (p, q, pos) line
         = Ok (p && negb (0 <=? str_find line (u "nothing to commit"))%Z,
               q || (0 <=? str_find line (u "Untracked files"))%Z,
               pos').
Proof.
  unfold git_status_line, count_too_long.
  destruct (origin_status decimal line) as [[word ds]|] eqn:Ho.
  - destruct (origin_status_digits _ _ _ Ho) as [Hne Hds].
    destruct (py_int_digits ds Hne Hds) as [n ->].
    destruct (max_str_digits <? Z.of_nat (length ds))%Z; [done|].
    eexists.
    destruct (0 <=? str_find line (u "nothing to commit"))%Z,
      (0 <=? str_find line (u "Untracked files"))%Z, p, q; reflexivity.
  - exists pos.
    destruct (0 <=? str_find line (u "nothing to commit"))%Z,
      (0 <=? str_find line (u "Untracked files"))%Z, p, q; reflexivity.
Qed.

Lemma for_lines_flags lines : ∀ p q pos,
  if existsb (count_too_long decimal) lines
  then for_lines (git_status_line decimal) (p, q, pos) lines
       = Raise ValueError
  else ∃ pos',
         for_lines (git_status_line decimal) (p, q, pos) lines
         = Ok (p && negb (existsb
                            (fun l =>
                               (0 <=? str_find l (u "nothing to commit"))%Z)
                            lines),
               q || existsb
                      (fun l => (0 <=? str_find l (u "Untracked files"))%Z)
                      lines,
               pos').
Proof.
  induction lines as [|l lines IH]; intros p q pos.
  - exists pos. simpl. by rewrite andb_true_r, orb_false_r.
  - pose proof (git_status_line_flags p q pos l) as H1.
    rewrite for_lines_cons. cbn [existsb].
    destruct (count_too_long decimal l); [by rewrite H1|].
    destruct H1 as [pos1 ->]. cbn [orb].
    specialize (IH (p && negb (0 <=? str_find l (u "nothing to commit"))%Z)
                   (q || (0 <=? str_find l (u "Untracked files"))%Z) pos1).
    destruct (existsb (count_too_long decimal) lines); [exact IH|].
    destruct IH as [pos' ->]. exists pos'.
    by rewrite negb_orb, andb_assoc, orb_assoc.
Qed.

(** Lines whose counts [int()] converts are read without an exception. *)
Lemma for_lines_ok lines acc :
  existsb (count_too_long decimal) lines = false →
  ∃ acc', for_lines (git_status_line decimal) acc lines = Ok acc'.
Proof.
  intros Hok. destruct acc as [[p q] pos].
  pose proof (for_lines_flags lines p q pos) as H. rewrite Hok in H.
  destruct H as [pos' ->]. by eexists.
Qed.

(** A line without a match leaves [origin_position] as it is. *)
Lemma git_status_line_no_match acc line :
  origin_status decimal line = None →
  ∃ pending untracked,
    git_status_line decimal acc line = Ok (pending, untracked, acc.2).
Proof.
  intros Ho. destruct acc as [[pending untracked] position].
  unfold git_status_line. rewrite Ho. by eexists _, _.
Qed.

Lemma for_lines_no_match lines : ∀ acc,
  Forall (fun l => origin_status decimal l = None) lines →
  ∃ pending untracked,
    for_lines (git_status_line decimal) acc lines
    = Ok (pending, untracked, acc.2).
Proof.
  induction lines as [|l lines IH]; intros acc Hl; simpl.
  - destruct acc as [[? ?] ?]. by eexists _, _.
  - apply Forall_cons in Hl as [Hl Hls].
    destruct (git_status_line_no_match acc l Hl) as (p & q & ->).
    apply (IH (p, q, acc.2) Hls).
Qed.

Lemma for_lines_app {S} (step : S → str → result S) l1 l2 acc acc1 :
  for_lines step acc l1 = Ok acc1 →
  for_lines step acc (l1 ++ l2) = for_lines step acc1 l2.
Proof.
  revert acc. induction l1 as [|l l1 IH]; intros acc; simpl.
  - intros [= Heq]. by subst.
  - destruct (step acc l); [apply IH|done].
Qed.

(** [(\d+) comm] takes a whole run of digits that [ comm] follows. *)
Lemma digits_comm_run ds rest :
  ds ≠ [] → Forall ascii_digit ds →
  digits_comm decimal (ds ++ u " comm" ++ rest) = Some ds.
Proof.
  intros Hne Hds. induction Hds as [|d ds Hd Hds IH]; [done|].
  assert (Hdig : isdigit decimal d = true)
    by (by apply isdigit_ascii_digit).
  change ((d :: ds) ++ u " comm" ++ rest)
    with (d :: (ds ++ u " comm" ++ rest)).
  change (digits_comm decimal (d :: (ds ++ u " comm" ++ rest)))
    with (if isdigit decimal d then
            match digits_comm decimal (ds ++ u " comm" ++ rest) with
            | Some ds' => Some (d :: ds')
            | None =>
                if startswith (u " comm") (ds ++ u " comm" ++ rest)
                then Some [d] else None
            end
          else None).
  rewrite Hdig. destruct ds as [|d' ds'].
  - change ([] ++ u " comm" ++ rest) with (u " comm" ++ rest).
    rewrite startswith_app.
    replace (digits_comm decimal (u " comm" ++ rest)) with (@None str);
      [done|].
    change (u " comm" ++ rest) with (32%N :: (u "comm" ++ rest)).
    change (digits_comm decimal (32%N :: (u "comm" ++ rest)))
      with (if isdigit decimal 32 then
              match digits_comm decimal (u "comm" ++ rest) with
              | Some ds' => Some (32%N :: ds')
              | None =>
                  if startswith (u " comm") (u "comm" ++ rest)
                  then Some [32%N] else None
              end
            else None).
    replace (isdigit decimal 32) with false; [done|].
    unfold isdigit. symmetry. apply bool_decide_eq_false.
    rewrite (table_ascii _ Htable) by lia. by intros [? ?].
  - by rewrite IH.
Qed.

(** [.*?] skips a text without digit and without newline. *)
Lemma skip_digits_comm_middle middle s ds :
  Forall (fun c => isdigit decimal c = false ∧ c ≠ 10%N) middle →
  digits_comm decimal s = Some ds →
  skip_digits_comm decimal (middle ++ s) = Some ds.
Proof.
  intros Hm Hs. induction Hm as [|c middle [Hc Hnl] _ IH].
  - destruct s as [|x s]; [done|].
    change (skip_digits_comm decimal ([] ++ x :: s))
      with (match digits_comm decimal (x :: s) with
            | Some ds => Some ds
            | None =>
                if eqc x 10 then None else skip_digits_comm decimal s
            end).
    by rewrite Hs.
  - change (skip_digits_comm decimal ((c :: middle) ++ s))
      with (match digits_comm decimal (c :: (middle ++ s)) with
            | Some ds => Some ds
            | None =>
                if eqc c 10 then None
                else skip_digits_comm decimal (middle ++ s)
            end).
    replace (digits_comm decimal (c :: (middle ++ s))) with (@None str).
    + unfold eqc. by destruct (N.eqb_spec c 10).
    + change (digits_comm decimal (c :: (middle ++ s)))
        with (if isdigit decimal c then
                match digits_comm decimal (middle ++ s) with
                | Some ds' => Some (c :: ds')
                | None =>
                    if startswith (u " comm") (middle ++ s)
                    then Some [c] else None
                end
              else None).
      by rewrite Hc.
Qed.

(** The pattern at the start of a text that names the direction, then
    has neither digit nor newline up to a run of digits that [ comm]
    follows: the groups are the direction and the run. *)
Lemma match_here_count (behind : bool) ds middle rest :
  ds ≠ [] → Forall ascii_digit ds →
  Forall (fun c => isdigit decimal c = false ∧ c ≠ 10%N) middle →
  match_here decimal
    (u "Your branch is " ++ (if behind then u "behind" else u "ahead")
       ++ middle ++ ds ++ u " comm" ++ rest)
  = Some (if behind then u "behind" else u "ahead", ds).
Proof.
  intros Hne Hds Hm.
  assert (Hskip : skip_digits_comm decimal (middle ++ ds ++ u " comm" ++ rest)
                  = Some ds).
  { apply skip_digits_comm_middle; [done|]. by apply digits_comm_run. }
  unfold match_here. rewrite startswith_app.
  rewrite (drop_app_length (u "Your branch is ")).
  destruct behind.
  - replace (startswith (u "ahead")
               (u "behind" ++ middle ++ ds ++ u " comm" ++ rest))
      with false by reflexivity.
    by rewrite startswith_app, (drop_app_length (u "behind")), Hskip.
  - by rewrite startswith_app, (drop_app_length (u "ahead")), Hskip.
Qed.

Lemma origin_status_here line m :
  match_here decimal line = Some m → origin_status decimal line = Some m.
Proof.
  intros Hm. destruct line as [|c line]; [done|].
  change (origin_status decimal (c :: line))
    with (match match_here decimal (c :: line) with
          | Some m => Some m
          | None => origin_status decimal line
          end).
  by rewrite Hm.
Qed.

(** [re.findall] walks over the positions where the pattern does not
    match. *)
Lemma origin_status_skip before rest :
  (∀ i, i < length before →
        match_here decimal (drop i (before ++ rest)) = None) →
  origin_status decimal (before ++ rest) = origin_status decimal rest.
Proof.
  induction before as [|c before IH]; intros Hno; [done|].
  change (origin_status decimal ((c :: before) ++ rest))
    with (match match_here decimal (c :: (before ++ rest)) with
          | Some m => Some m
          | None => origin_status decimal (before ++ rest)
          end).
  pose proof (Hno 0 ltac:(simpl; lia)) as H0.
  change (drop 0 ((c :: before) ++ rest)) with (c :: (before ++ rest)) in H0.
  rewrite H0. apply IH.
  intros i Hi. apply (Hno (S i)). simpl. lia.
Qed.
End GitFacts.

(** When the branch query shows a current branch, [git status] starts
    and [get_git_status] returns, [add_git_segment] appends one segment
    to the right row and returns [True]. *)
Lemma add_git_segment_present W powerline cwd st o1 o2 o3 c s status :
  World_start W (st_log st) GitBranch = inl o1 →
  World_start W (st_log st ++ [GitBranch]) GrepStar = inl o2 →
  bytes_strip (grep has_star (stdout o1)) = c :: s →
  World_start W ((st_log st ++ [GitBranch]) ++ [GrepStar]) GitStatus = inl o3 →
  parse_git_status (World_decimal W) (stdout o3) = Ok status →
  add_git_segment W powerline cwd st
  = (Ok (Some true),
     mkState
       (Powerline_append_right powerline
          (git_segment powerline (st_heap st powerline) (c :: s) status)
          (st_heap st))
       (st_p st)
       (((st_log st ++ [GitBranch]) ++ [GrepStar]) ++ [GitStatus])).
Proof.
  intros H1 H2 Hout H3 Hst.
  unfold add_git_segment. popen_ok H1. popen_ok H2. rewrite Hout.
  unfold get_git_status.
  erewrite bind_ok; [|erewrite bind_ok; [|apply Popen_ok; simpl st_log; exact H3];
                      unfold lift; rewrite Hst; reflexivity].
  destruct status as [[pending untracked] position].
  unfold bind, get_heap, update_heap, ret. simpl.
  match goal with
  | |- context [Segment_init ?h ?l ?x ?fg ?bg ?sep ?sfg ?r] =>
      replace (Segment_init h l x fg bg sep sfg r)
        with (git_segment powerline (st_heap st powerline) (c :: s)
                (pending, untracked, position))
  end; [reflexivity|].
  unfold git_segment, git_label, Segment_init. simpl.
  destruct pending, untracked; simpl; rewrite ?app_nil_r; reflexivity.
Qed.

(** A text of ASCII characters without digit and without newline. *)
Lemma ascii_no_digit decimal middle :
  table_ok decimal →
  forallb (fun c => (c <? 128)%N && negb (isdigit ascii_decimal c)
                    && negb (eqc c 10)) middle = true →
  Forall (fun c => isdigit decimal c = false ∧ c ≠ 10%N) middle.
Proof.
  intros Htable. induction middle as [|c middle IH]; [constructor|].
  cbn [forallb]. intros H. apply andb_true_iff in H as [H Hm].
  apply andb_true_iff in H as [H Hnl]. apply andb_true_iff in H as [Hc Hd].
  constructor; [|by apply IH]. apply N.ltb_lt in Hc. split.
  - rewrite (isdigit_ascii decimal Htable) by done. by destruct (isdigit _ c).
  - intros ->. done.
Qed.

(** The line of the scenario, wherever it stands on a line that the
    pattern does not match before it, gives the two groups [ahead] and
    [3]. *)
Lemma origin_status_ahead_line decimal before after :
  table_ok decimal →
  (∀ i, i < length before →
        match_here decimal (drop i (before ++ ahead_line ++ after)) = None) →
  origin_status decimal (before ++ ahead_line ++ after)
  = Some (u "ahead", u "3").
Proof.
  intros Htable Hno.
  rewrite (origin_status_skip decimal before _ Hno).
  apply origin_status_here.
  change (ahead_line ++ after)
    with (u "Your branch is " ++ u "ahead" ++ u " of 'origin/main' by "
            ++ u "3" ++ u " comm" ++ (u "its" ++ after)).
  apply (match_here_count decimal Htable false).
  - done.
  - change (u "3") with [51%N].
    constructor; [unfold ascii_digit; lia|constructor].
  - by apply ascii_no_digit.
Qed.

(** C7 (as the code has it): when a line of the text of [git status]
    has the phrase, the pattern matches nowhere on that line before the
    phrase and on no later line, and the counts on the earlier lines
    have no more digits than [int()] converts, the parser gives the
    badge [" 3"] followed by the up arrow, and [add_git_segment] shows
    the branch name followed by that badge (and by [" +"] when there are
    untracked files). *)
Theorem ahead_badge W powerline cwd st o1 o2 o3 c s pre before after post :
  table_ok (World_decimal W) →
  World_start W (st_log st) GitBranch = inl o1 →
  World_start W (st_log st ++ [GitBranch]) GrepStar = inl o2 →
  bytes_strip (grep has_star (stdout o1)) = c :: s →
  World_start W ((st_log st ++ [GitBranch]) ++ [GrepStar]) GitStatus = inl o3 →
  str_split 10 (stdout o3) = pre ++ (before ++ ahead_line ++ after) :: post →
  (∀ i, i < length before →
        match_here (World_decimal W) (drop i (before ++ ahead_line ++ after))
        = None) →
  existsb (count_too_long (World_decimal W)) pre = false →
  Forall (fun l => origin_status (World_decimal W) l = None) post →
  ∃ pending untracked seg st',
    parse_git_status (World_decimal W) (stdout o3)
    = Ok (pending, untracked, u " 3" ++ [0x21E1%N])
    ∧ add_git_segment W powerline cwd st = (Ok (Some true), st')
    ∧ Powerline_segments_right (st_heap st' powerline)
      = Powerline_segments_right (st_heap st powerline) ++ [seg]
    ∧ Segment_content seg
      = spaced ((slice_from (str_rstrip (c :: s)) 2 ++ u " 3" ++ [0x21E1%N])
                  ++ (if untracked then u " +" else [])).
Proof.
  intros Htable H1 H2 Hout H3 Hlines Hbefore Hpre Hpost.
  assert (Hst : ∃ pending untracked,
             parse_git_status (World_decimal W) (stdout o3)
             = Ok (pending, untracked, u " 3" ++ [0x21E1%N])).
  { unfold parse_git_status. rewrite Hlines.
    destruct (for_lines_ok _ Htable pre (true, false, []) Hpre)
      as [acc1 Hacc1].
    rewrite (for_lines_app _ _ _ _ _ Hacc1).
    destruct acc1 as [[p1 u1] pos1].
    assert (Hline : ∃ p2 u2,
               git_status_line (World_decimal W) (p1, u1, pos1)
                 (before ++ ahead_line ++ after)
               = Ok (p2, u2, u " 3" ++ [0x21E1%N])).
    { unfold git_status_line.
      rewrite (origin_status_ahead_line _ before after Htable Hbefore).
      change (u "3") with (dec (Z.of_nat 3)).
      rewrite (py_int_dec_short _ Htable 3) by (unfold ssize_max; lia).
      by eexists _, _. }
    destruct Hline as (p2 & u2 & Hline).
    rewrite for_lines_cons, Hline.
    destruct (for_lines_no_match _ post (p2, u2, u " 3" ++ [0x21E1%N]) Hpost)
      as (p3 & u3 & Hrest).
    rewrite Hrest. by eexists _, _. }
  destruct Hst as (pending & untracked & Hst).
  eexists pending, untracked, _, _. split; [exact Hst|].
  split; [exact (add_git_segment_present W powerline cwd st o1 o2 o3 c s _
                   H1 H2 Hout H3 Hst)|].
  simpl. rewrite Powerline_append_right_lookup. simpl.
  split; reflexivity.
Qed.

Lemma ahead_badge_witness :
  table_ok ascii_decimal
  ∧ bytes_strip (grep has_star git_branch_text) = u "* main"
  ∧ str_split 10 git_status_text_dot
    = [u "# On branch main"] ++ (u "# " ++ ahead_line ++ u ".")
        :: [u "#"; u "nothing to commit, working tree clean"; []]
  ∧ ∃ pending untracked seg st',
      parse_git_status ascii_decimal git_status_text_dot
      = Ok (pending, untracked, u " 3" ++ [0x21E1%N])
      ∧ add_git_segment git_dot_world 0 None example_state
        = (Ok (Some true), st')
      ∧ Powerline_segments_right (st_heap st' 0)
        = Powerline_segments_right (st_heap example_state 0) ++ [seg]
      ∧ Segment_content seg
        = spaced ((slice_from (str_rstrip (u "* main")) 2
                     ++ u " 3" ++ [0x21E1%N])
                    ++ (if untracked then u " +" else [])).
Proof.
  split; [exact ascii_table_ok|]. split; [reflexivity|].
  split; [reflexivity|].
  apply (ahead_badge git_dot_world 0 None example_state
           (mkOutput git_branch_text [] I) (mkOutput [] [] I)
           (mkOutput git_status_text_dot [] I) 42%N (u " main")
           [u "# On branch main"] (u "# ") (u ".")
           [u "#"; u "nothing to commit, working tree clean"; []]);
    try reflexivity.
  - exact ascii_table_ok.
  - intros i Hi. change (length (u "# ")) with 2 in Hi.
    destruct i as [|[|i]]; [reflexivity|reflexivity|lia].
  - repeat constructor.
Defined.

(** C7 fails as worded: this text of [git status] has the line, and a
    later line (an untracked file) matches the pattern too; the badge is
    then [" 5"] followed by the down arrow, and that is what the segment
    shows. *)
Lemma ahead_badge_overwritten :
  str_split 10 git_status_text_untracked !! 1 = Some ahead_line
  ∧ parse_git_status ascii_decimal git_status_text_untracked
    = Ok (true, true, u " 5" ++ [0x21E3%N])
  ∧ Segment_content
      <$> Powerline_segments_right
            (st_heap (add_git_segment git_untracked_world 0 None
                        example_state).2 0)
    = [u " main 5" ++ [0x21E3%N] ++ u " + "].
Proof. vm_compute. repeat split. Qed.

(** A match that starts before the phrase on the same line decides as
    well: its direction goes with the count of the phrase. *)
Lemma ahead_badge_same_line :
  parse_git_status ascii_decimal
    (u "Your branch is behind x " ++ ahead_line ++ [10%N])
  = Ok (true, false, u " 3" ++ [0x21E3%N]).
Proof. by vm_compute. Qed.

(** ** The dispatcher *)

Lemma dispatch_found detector rest cwd st v st1 :
  detector (st_p st) cwd st = (Ok v, st1) → truthy v = true →
  dispatch (detector :: rest) cwd st = (Ok tt, st1).
Proof.
  intros Hd Hv. simpl. unfold bind, try_except, get_p, ret.
  by rewrite Hd, Hv.
Qed.

Lemma dispatch_absent detector rest cwd st v st1 :
  detector (st_p st) cwd st = (Ok v, st1) → truthy v = false →
  dispatch (detector :: rest) cwd st = dispatch rest cwd st1.
Proof.
  intros Hd Hv. simpl. unfold bind at 1. unfold try_except, bind, get_p, ret.
  by rewrite Hd, Hv.
Qed.

Lemma dispatch_failed detector rest cwd st e st1 :
  detector (st_p st) cwd st = (Raise e, st1) → process_error e = true →
  dispatch (detector :: rest) cwd st = dispatch rest cwd st1.
Proof.
  intros Hd He. simpl. unfold bind at 1. unfold try_except, bind, get_p, ret.
  by rewrite Hd, He.
Qed.

Lemma dispatch_not_detected detector rest cwd st :
  not_detected (detector (st_p st) cwd st).1 = true →
  dispatch (detector :: rest) cwd st
  = dispatch rest cwd (detector (st_p st) cwd st).2.
Proof.
  destruct (detector (st_p st) cwd st) as [[v|e] st1] eqn:Hd; simpl; intros H.
  - eapply dispatch_absent; [done|]. by destruct (truthy v).
  - by eapply dispatch_failed.
Qed.

Lemma dispatch_reports_presence detector rest cwd st :
  reports_presence (detector (st_p st) cwd st).1 = true →
  dispatch (detector :: rest) cwd st
  = (Ok tt, (detector (st_p st) cwd st).2).
Proof.
  destruct (detector (st_p st) cwd st) as [[v|e] st1] eqn:Hd; simpl; intros H.
  - by eapply dispatch_found.
  - done.
Qed.

Lemma dispatch_no_process_error detectors : ∀ cwd st e,
  process_error e = true → (dispatch detectors cwd st).1 ≠ Raise e.
Proof.
  induction detectors as [|d rest IH]; intros cwd st e He; [done|].
  destruct (d (st_p st) cwd st) as [[v|e'] st1] eqn:Hd.
  - destruct (truthy v) eqn:Hv.
    + by rewrite (dispatch_found _ _ _ _ _ _ Hd Hv).
    + rewrite (dispatch_absent _ _ _ _ _ _ Hd Hv). by apply IH.
  - destruct (process_error e') eqn:He'.
    + rewrite (dispatch_failed _ _ _ _ _ _ Hd He'). by apply IH.
    + simpl. unfold bind, try_except, get_p, ret. rewrite Hd, He'. simpl.
      intros [= ->]. congruence.
Qed.

(** C2 (as the code has it): the detectors are tried in the order
    git, Subversion, Mercurial, and the first one that reports presence
    ends the search with the state it leaves; so in a directory where
    the branch query of git shows a current branch, [git status] starts
    and [get_git_status] returns (also when Subversion would report
    presence too), [add_repo_segment] appends the git segment to the
    right row of [p] and changes nothing else, and the processes started
    are those of the git detector and no other. *)
Theorem add_repo_segment_priority W powerline cwd st :
  let git := add_git_segment W (st_p st) cwd st in
  let svn := add_svn_segment W (st_p git.2) cwd git.2 in
  let hg := add_hg_segment W (st_p svn.2) cwd svn.2 in
  (reports_presence git.1 = true →
   add_repo_segment W powerline cwd st = (Ok tt, git.2))
  ∧ (not_detected git.1 = true → reports_presence svn.1 = true →
     add_repo_segment W powerline cwd st = (Ok tt, svn.2))
  ∧ (not_detected git.1 = true → not_detected svn.1 = true →
     reports_presence hg.1 || not_detected hg.1 = true →
     add_repo_segment W powerline cwd st = (Ok tt, hg.2))
  ∧ (∀ o1 o2 o3 c s status,
       World_start W (st_log st) GitBranch = inl o1 →
       World_start W (st_log st ++ [GitBranch]) GrepStar = inl o2 →
       bytes_strip (grep has_star (stdout o1)) = c :: s →
       World_start W ((st_log st ++ [GitBranch]) ++ [GrepStar]) GitStatus
       = inl o3 →
       parse_git_status (World_decimal W) (stdout o3) = Ok status →
       ∃ st',
         add_repo_segment W powerline cwd st = (Ok tt, st')
         ∧ st_log st' = st_log st ++ [GitBranch; GrepStar; GitStatus]
         ∧ Powerline_segments_right (st_heap st' (st_p st))
           = Powerline_segments_right (st_heap st (st_p st))
               ++ [git_segment (st_p st) (st_heap st (st_p st)) (c :: s)
                     status]
         ∧ Powerline_segments (st_heap st' (st_p st))
           = Powerline_segments (st_heap st (st_p st))
         ∧ Powerline_segments_down (st_heap st' (st_p st))
           = Powerline_segments_down (st_heap st (st_p st))
         ∧ (∀ l, l ≠ st_p st → st_heap st' l = st_heap st l)
         ∧ st_p st' = st_p st).
Proof.
  intros git svn hg. unfold add_repo_segment.
  split; [|split; [|split]].
  - intros Hg. by apply dispatch_reports_presence.
  - intros Hg Hs. rewrite dispatch_not_detected by done.
    by apply dispatch_reports_presence.
  - intros Hg Hs Hh. rewrite dispatch_not_detected by done.
    rewrite dispatch_not_detected by done.
    apply orb_true_iff in Hh as [Hh|Hh].
    + by apply dispatch_reports_presence.
    + by rewrite dispatch_not_detected.
  - intros o1 o2 o3 c s status H1 H2 Hout H3 Hst.
    pose proof (add_git_segment_present W (st_p st) cwd st o1 o2 o3 c s
                  status H1 H2 Hout H3 Hst) as Hrun.
    eexists. split; [exact (dispatch_found _ _ _ _ _ _ Hrun eq_refl)|].
    cbn [st_log st_heap st_p].
    split; [by rewrite <- !app_assoc|].
    rewrite Powerline_append_right_lookup.
    split; [done|]. split; [done|]. split; [done|]. split; [|done].
    intros l Hl. by apply Powerline_append_right_lookup_ne.
Qed.

Lemma add_repo_segment_priority_witness :
  reports_presence
    (add_git_segment git_svn_world 0 None example_state).1 = true
  ∧ bytes_strip (stderr (mkOutput svn_status_text [] I)) = []
  ∧ add_repo_segment git_svn_world 1 None example_state
    = (Ok tt, (add_git_segment git_svn_world 0 None example_state).2)
  ∧ ∃ st',
      add_repo_segment git_svn_world 1 None example_state = (Ok tt, st')
      ∧ st_log st' = [GitBranch; GrepStar; GitStatus]
      ∧ Powerline_segments_right (st_heap st' 0)
        = [git_segment 0 example_powerline (u "* main")
             (false, false, u " 3" ++ [0x21E1%N])]
      ∧ Powerline_segments (st_heap st' 0) = []
      ∧ Powerline_segments_down (st_heap st' 0) = []
      ∧ (∀ l, l ≠ 0 → st_heap st' l = example_heap l)
      ∧ st_p st' = 0.
Proof.
  pose proof (add_repo_segment_priority git_svn_world 1 None example_state)
    as (Hgit & _ & _ & Hpresent).
  split; [reflexivity|]. split; [reflexivity|]. split.
  - apply Hgit. reflexivity.
  - apply (Hpresent (mkOutput git_branch_text [] I) (mkOutput [] [] I)
             (mkOutput git_status_text [] I) 42%N (u " main")
             (false, false, u " 3" ++ [0x21E1%N]));
      reflexivity.
Defined.

(** C2 fails as worded: here the presence test of git succeeds (the
    branch query shows [* main]) and that of Subversion would succeed,
    yet [git status] does not start; the failure is caught, the
    Subversion detector is consulted and its segment is the one
    appended, and no git segment is. *)
Lemma add_repo_segment_git_status_fails :
  bytes_strip (grep has_star git_branch_text) = u "* main"
  ∧ add_git_segment git_status_fails_world 0 None example_state
    = (Raise OSError, mkState example_heap 0 [GitBranch; GrepStar; GitStatus])
  ∧ (add_repo_segment git_status_fails_world 0 None example_state).1 = Ok tt
  ∧ st_log (add_repo_segment git_status_fails_world 0 None example_state).2
    = [GitBranch; GrepStar; GitStatus; SvnStatus; SvnStatus; GrepCount]
  ∧ Powerline_segments_right
      (st_heap (add_repo_segment git_status_fails_world 0 None
                  example_state).2 0) = []
  ∧ Segment_content
      <$> Powerline_segments
            (st_heap (add_repo_segment git_status_fails_world 0 None
                        example_state).2 0)
    = [u " 2 "].
Proof. vm_compute. repeat split. Qed.

(** C8: [add_repo_segment] never raises [OSError] or
    [CalledProcessError]; a detector that raises one of them counts as
    one that found nothing: the search goes on with the detectors after
    it (and ends when there is none), from the state the failed detector
    left. *)
Theorem add_repo_segment_catches W powerline cwd st :
  (∀ e, process_error e = true →
        (add_repo_segment W powerline cwd st).1 ≠ Raise e)
  ∧ (∀ e st1, process_error e = true →
       add_git_segment W (st_p st) cwd st = (Raise e, st1) →
       add_repo_segment W powerline cwd st
       = dispatch [add_svn_segment W; add_hg_segment W] cwd st1)
  ∧ (∀ detector rest st0 e st1, process_error e = true →
       detector (st_p st0) cwd st0 = (Raise e, st1) →
       dispatch (detector :: rest) cwd st0 = dispatch rest cwd st1
       ∧ dispatch [detector] cwd st0 = (Ok tt, st1)).
Proof.
  split; [|split].
  - intros e He. by apply dispatch_no_process_error.
  - intros e st1 He Hg. unfold add_repo_segment.
    by apply (dispatch_failed _ _ _ _ e).
  - intros detector rest st0 e st1 He Hd. split.
    + by apply (dispatch_failed _ _ _ _ e).
    + by rewrite (dispatch_failed _ _ _ _ e st1 Hd He).
Qed.

Lemma add_repo_segment_catches_witness :
  process_error OSError = true
  ∧ add_git_segment git_missing_world 0 None example_state
    = (Raise OSError, mkState example_heap 0 [GitBranch])
  ∧ (add_repo_segment git_missing_world 0 None example_state).1
    ≠ Raise OSError
  ∧ add_repo_segment git_missing_world 0 None example_state
    = dispatch [add_svn_segment git_missing_world;
                add_hg_segment git_missing_world] None
        (mkState example_heap 0 [GitBranch])
  ∧ dispatch [add_git_segment git_missing_world] None example_state
    = (Ok tt, mkState example_heap 0 [GitBranch]).
Proof.
  pose proof (add_repo_segment_catches git_missing_world 0 None example_state)
    as (Hnever & Hnext & Hany).
  split; [reflexivity|]. split; [reflexivity|]. split; [|split].
  - apply Hnever. reflexivity.
  - apply (Hnext OSError); reflexivity.
  - apply (Hany (add_git_segment git_missing_world) [] example_state OSError);
      reflexivity.
Defined.

(** ** What the detectors touch *)

Lemma grows_refl l st : grows l st st.
Proof.
  split; [done|]. split; [done|]. exists [], [].
  rewrite !app_nil_r. by destruct (st_heap st l).
Qed.

Lemma grows_trans l st1 st2 st3 :
  grows l st1 st2 → grows l st2 st3 → grows l st1 st3.
Proof.
  intros (Hp1 & Ho1 & a1 & b1 & H1) (Hp2 & Ho2 & a2 & b2 & H2).
  split; [congruence|]. split.
  - intros l' Hl. rewrite Ho2, Ho1; done.
  - exists (a1 ++ a2), (b1 ++ b2). rewrite H2, H1. simpl.
    by rewrite !app_assoc.
Qed.

Lemma grows_log l st log :
  grows l st (mkState (st_heap st) (st_p st) log).
Proof.
  split; [done|]. split; [done|]. exists [], [].
  rewrite !app_nil_r. simpl. by destruct (st_heap st l).
Qed.

Lemma frames_ret {A} l (a : A) : frames l (ret a).
Proof. intros st. apply grows_refl. Qed.

Lemma frames_raise {A} l e : frames l (@raise A e).
Proof. intros st. apply grows_refl. Qed.

Lemma frames_lift {A} l (r : result A) : frames l (lift r).
Proof. intros st. apply grows_refl. Qed.

Lemma frames_get_heap l : frames l get_heap.
Proof. intros st. apply grows_refl. Qed.

Lemma frames_get_p l : frames l get_p.
Proof. intros st. apply grows_refl. Qed.

Lemma frames_Popen W l c : frames l (Popen W c).
Proof.
  intros st. unfold Popen.
  destruct (World_start W (st_log st) c); apply grows_log.
Qed.

Lemma frames_bind {A B} l (m : M A) (k : A → M B) :
  frames l m → (∀ a, frames l (k a)) → frames l (bind m k).
Proof.
  intros Hm Hk st. unfold bind. specialize (Hm st).
  destruct (m st) as [[a|e] st1]; [|done].
  eapply grows_trans; [exact Hm|]. apply Hk.
Qed.

Lemma frames_try_except {A} l (body handler : M A) handled :
  frames l body → frames l handler →
  frames l (try_except body handled handler).
Proof.
  intros Hb Hh st. unfold try_except. specialize (Hb st).
  destruct (body st) as [[a|e] st1]; [done|].
  destruct (handled e); [|done].
  eapply grows_trans; [exact Hb|]. apply Hh.
Qed.

Lemma frames_append l seg : frames l (update_heap (Powerline_append l seg)).
Proof.
  intros st. unfold update_heap, grows. cbn [snd st_heap st_p].
  split; [done|]. split.
  - intros l' Hl. by apply Powerline_append_lookup_ne.
  - exists [seg], []. rewrite Powerline_append_lookup, app_nil_r.
    by destruct (st_heap st l).
Qed.

Lemma frames_append_right l seg :
  frames l (update_heap (Powerline_append_right l seg)).
Proof.
  intros st. unfold update_heap, grows. cbn [snd st_heap st_p].
  split; [done|]. split.
  - intros l' Hl. by apply Powerline_append_right_lookup_ne.
  - exists [], [seg]. rewrite Powerline_append_right_lookup, app_nil_r.
    by destruct (st_heap st l).
Qed.

Ltac frames_step :=
  first
    [ apply frames_ret | apply frames_raise | apply frames_lift
    | apply frames_get_heap | apply frames_get_p | apply frames_Popen
    | apply frames_append | apply frames_append_right
    | apply frames_bind | apply frames_try_except
    | match goal with
      | |- ∀ _, _ => intros ?
      | |- frames _ (if ?b then _ else _) => destruct b
      | |- frames _ (match ?x with _ => _ end) => destruct x
      end ].

Lemma frames_add_git_segment W l cwd : frames l (add_git_segment W l cwd).
Proof. unfold add_git_segment, get_git_status. repeat frames_step. Qed.

Lemma frames_add_svn_segment W l cwd : frames l (add_svn_segment W l cwd).
Proof. unfold add_svn_segment. repeat frames_step. Qed.

Lemma frames_add_hg_segment W l cwd : frames l (add_hg_segment W l cwd).
Proof. unfold add_hg_segment, get_hg_status. repeat frames_step. Qed.

Lemma grows_dispatch detectors cwd :
  Forall (fun d => ∀ l, frames l (d l cwd)) detectors →
  ∀ st, grows (st_p st) st (dispatch detectors cwd st).2.
Proof.
  induction 1 as [|d rest Hd _ IH]; intros st; [apply grows_refl|].
  pose proof (Hd (st_p st) st) as Hg.
  destruct (d (st_p st) cwd st) as [[v|e] st1] eqn:Hrun; simpl in Hg.
  - destruct (truthy v) eqn:Hv.
    + by rewrite (dispatch_found _ _ _ _ _ _ Hrun Hv).
    + rewrite (dispatch_absent _ _ _ _ _ _ Hrun Hv).
      eapply grows_trans; [exact Hg|].
      destruct Hg as [<- _]. apply IH.
  - destruct (process_error e) eqn:He.
    + rewrite (dispatch_failed _ _ _ _ _ _ Hrun He).
      eapply grows_trans; [exact Hg|].
      destruct Hg as [<- _]. apply IH.
    + simpl. unfold bind, try_except, get_p, ret. rewrite Hrun, He. exact Hg.
Qed.

(** C9: [add_repo_segment] does the same whatever instance it is given
    as [powerline]; it leaves the name [p] bound as it was, leaves every
    instance other than [p] as it was (the one given as [powerline] too,
    when it is not [p]), and the rows of [p] grow at their ends by what
    the detectors append. *)
Theorem add_repo_segment_ignores_argument W powerline powerline' cwd st :
  let st' := (add_repo_segment W powerline cwd st).2 in
  add_repo_segment W powerline cwd st = add_repo_segment W powerline' cwd st
  ∧ st_p st' = st_p st
  ∧ (∀ l, l ≠ st_p st → st_heap st' l = st_heap st l)
  ∧ (powerline ≠ st_p st → st_heap st' powerline = st_heap st powerline)
  ∧ ∃ left right,
      Powerline_segments (st_heap st' (st_p st))
      = Powerline_segments (st_heap st (st_p st)) ++ left
      ∧ Powerline_segments_right (st_heap st' (st_p st))
        = Powerline_segments_right (st_heap st (st_p st)) ++ right.
Proof.
  intros st'. split; [reflexivity|].
  assert (Hg : grows (st_p st) st st').
  { apply grows_dispatch.
    apply Forall_cons; split; [intros l; apply frames_add_git_segment|].
    apply Forall_cons; split; [intros l; apply frames_add_svn_segment|].
    apply Forall_cons; split; [intros l; apply frames_add_hg_segment|].
    apply Forall_nil_2. }
  destruct Hg as (Hp & Ho & left & right & Hh).
  split; [exact Hp|]. split; [exact Ho|]. split; [apply Ho|].
  exists left, right. rewrite Hh. simpl. done.
Qed.

Lemma add_repo_segment_ignores_argument_witness :
  (1 ≠ st_p example_state)
  ∧ add_repo_segment git_svn_world 1 None example_state
    = add_repo_segment git_svn_world 0 None example_state
  ∧ st_heap (add_repo_segment git_svn_world 1 None example_state).2 1
    = st_heap example_state 1
  ∧ ∃ left right,
      Powerline_segments
        (st_heap (add_repo_segment git_svn_world 1 None example_state).2 0)
      = Powerline_segments (st_heap example_state 0) ++ left
      ∧ Powerline_segments_right
          (st_heap (add_repo_segment git_svn_world 1 None example_state).2 0)
        = Powerline_segments_right (st_heap example_state 0) ++ right.
Proof.
  pose proof (add_repo_segment_ignores_argument git_svn_world 1 0 None
                example_state) as (Hsame & _ & _ & Harg & Hrows).
  split; [discriminate|]. split; [exact Hsame|]. split; [|exact Hrows].
  apply Harg. discriminate.
Defined.

(** ** The instances used above *)

(** [example_powerline] is what the constructor builds. *)
Lemma Powerline_init_example :
  Powerline_init (u "patched") (u "bash") (VStr (u "20"))
  = Ok example_powerline.
Proof. vm_compute. reflexivity. Qed.

(** An unknown glyph set or shell is a [KeyError]. *)
Lemma Powerline_init_unknown :
  Powerline_init (u "fancy") (u "bash") (VInt 0) = Raise KeyError
  ∧ Powerline_init (u "patched") (u "fish") (VInt 0) = Raise KeyError.
Proof. vm_compute. split; reflexivity. Qed.

(* ================================================================== *)
(** * Further properties *)

(** ** Rows and their drawing *)

(** A drawn row shows, between its colour codes, as many characters as
    the widths of its segments add up to; this holds for the pairing of
    the left row and for that of the right row. *)
Theorem draw_pairs_width h row :
  Z.of_nat (length (printed (draw_pairs h (left_pairs row)))) = sum_width row
  ∧ Z.of_nat (length (printed (draw_pairs h (right_pairs row))))
    = sum_width row.
Proof.
  rewrite !printed_texts, !texts_draw_pairs, left_pairs_fst, right_pairs_fst.
  rewrite !segment_texts_length. by rewrite sum_width_reverse.
Qed.

(** In the left row and in the indicator row every segment is drawn
    with the segment appended after it as its partner, and the last one
    with none. *)
Theorem left_pairs_successor (row : list Segment) (k : nat) (c : Segment) :
  row !! k = Some c → left_pairs row !! k = Some (c, row !! S k).
Proof.
  intros Hk. unfold left_pairs.
  assert (Hlt : k < length row) by (by eapply lookup_lt_Some).
  apply lookup_zip_with_Some. exists c, (row !! S k).
  split; [done|]. split; [done|]. unfold shifted.
  destruct (decide (S k < length row)) as [Hs|Hs].
  - rewrite lookup_app_l by (rewrite length_fmap, length_drop; lia).
    rewrite list_lookup_fmap, lookup_drop. simpl.
    destruct (lookup_lt_is_Some_2 row (S k) Hs) as [x Hx]. by rewrite Hx.
  - rewrite lookup_app_r by (rewrite length_fmap, length_drop; lia).
    rewrite length_fmap, length_drop.
    replace (k - (length row - 1)) with 0 by lia. simpl.
    f_equal. symmetry. apply lookup_ge_None. lia.
Qed.

Lemma left_pairs_successor_witness :
  [seg_cwd; seg_git] !! 1 = Some seg_git
  ∧ left_pairs [seg_cwd; seg_git] !! 1 = Some (seg_git, None).
Proof.
  split; [reflexivity|].
  apply (left_pairs_successor [seg_cwd; seg_git] 1 seg_git). reflexivity.
Defined.



(** ** The working directory, in general *)

Lemma str_split_cons sep s : ∃ w ws, str_split sep s = w :: ws.
Proof.
  induction s as [|c s (w & ws & IH)]; simpl; [by eexists _, _|].
  destruct (eqc c sep); [by eexists _, _|]. rewrite IH. by eexists _, _.
Qed.

(** A working directory that starts with the text of [HOME] is split
    after that text is replaced by a tilde, whether or not the text ends
    at a component boundary; the home directory itself gives the single
    name [~]. *)
Theorem cwd_components_home W home tail :
  getenv W (u "HOME") = Some home → home ≠ [] →
  cwd_components W (Some (home ++ tail)) = Ok (str_split 47 (126%N :: tail))
  ∧ cwd_components W (Some home) = Ok [[126%N]].
Proof.
  intros Hhome Hne.
  assert (Hgen : ∀ t, cwd_components W (Some (home ++ t))
                      = Ok (str_split 47 (126%N :: t))).
  { intros t. unfold cwd_components. rewrite Hhome.
    destruct home as [|c home']; [done|].
    change ((c :: home') ++ t) with (c :: (home' ++ t)).
    cbv beta iota zeta.
    change (c :: home' ++ t) with ((c :: home') ++ t).
    unfold str_find, find_from.
    destruct ((c :: home') ++ t) as [|x xs] eqn:Hx; [done|].
    rewrite <- Hx. rewrite startswith_app. simpl Z.eqb. cbv iota.
    unfold str_replace1. rewrite Hx, <- Hx, startswith_app.
    rewrite drop_app_length. reflexivity. }
  split; [apply Hgen|].
  specialize (Hgen []). by rewrite app_nil_r in Hgen.
Qed.

Lemma cwd_components_home_witness :
  getenv plain_world (u "HOME") = Some (u "/home/u")
  ∧ cwd_components plain_world (Some (u "/home/u" ++ u "ser2/src"))
    = Ok [u "~ser2"; u "src"]
  ∧ cwd_components plain_world (Some (u "/home/u")) = Ok [u "~"].
Proof.
  split; [reflexivity|].
  apply (cwd_components_home plain_world (u "/home/u") (u "ser2/src"));
    [reflexivity|discriminate].
Defined.

(** With more names than a maximum depth of at least 3, the collapsed
    list has [maxdepth + 1] names: the first two, the ellipsis and the
    last [maxdepth - 2]. *)
Theorem collapse_deep (names : list str) (maxdepth : Z) :
  (3 <= maxdepth < Z.of_nat (length names))%Z →
  collapse names maxdepth
  = take 2 names ++ [[0x2026%N]]
      ++ drop (length names - Z.to_nat (maxdepth - 2)) names
  ∧ Z.of_nat (length (collapse names maxdepth)) = (maxdepth + 1)%Z.
Proof.
  intros Hd. unfold collapse, slice_from.
  replace (maxdepth <? Z.of_nat (length names))%Z with true
    by (symmetry; apply Z.ltb_lt; lia).
  replace (2 - maxdepth <? 0)%Z with true by (symmetry; apply Z.ltb_lt; lia).
  replace (- (2 - maxdepth))%Z with (maxdepth - 2)%Z by lia.
  split; [done|].
  rewrite !length_app, length_take, length_drop.
  change (length [[0x2026%N]]) with 1. lia.
Qed.

Lemma collapse_deep_witness :
  collapse [u "a"; u "b"; u "c"; u "d"; u "e"; u "f"; u "g"] 5
  = take 2 [u "a"; u "b"; u "c"; u "d"; u "e"; u "f"; u "g"] ++ [[0x2026%N]]
      ++ drop (7 - Z.to_nat (5 - 2))
           [u "a"; u "b"; u "c"; u "d"; u "e"; u "f"; u "g"]
  ∧ Z.of_nat
      (length (collapse [u "a"; u "b"; u "c"; u "d"; u "e"; u "f"; u "g"] 5))
    = (5 + 1)%Z.
Proof.
  apply (collapse_deep [u "a"; u "b"; u "c"; u "d"; u "e"; u "f"; u "g"] 5).
  simpl. lia.
Defined.

(** With a maximum depth of 2 the collapse shortens nothing: after the
    first two names and the ellipsis the whole list follows again, three
    names more than before. *)
Theorem collapse_two_repeats (names : list str) :
  2 < length names →
  collapse names 2 = take 2 names ++ [[0x2026%N]] ++ names
  ∧ length (collapse names 2) = length names + 3.
Proof.
  intros Hl. unfold collapse, slice_from.
  replace (2 <? Z.of_nat (length names))%Z with true
    by (symmetry; apply Z.ltb_lt; lia).
  change (2 - 2 <? 0)%Z with false. change (Z.to_nat (2 - 2)) with 0.
  rewrite drop_0. split; [done|].
  rewrite !length_app, length_take.
  change (length [[0x2026%N]]) with 1. lia.
Qed.

Lemma collapse_two_repeats_witness :
  collapse [u "a"; u "b"; u "c"] 2
  = take 2 [u "a"; u "b"; u "c"] ++ [[0x2026%N]] ++ [u "a"; u "b"; u "c"]
  ∧ length (collapse [u "a"; u "b"; u "c"] 2) = 3 + 3.
Proof. apply (collapse_two_repeats [u "a"; u "b"; u "c"]). simpl. lia. Defined.

Lemma cwd_components_split W cwd ns :
  cwd_components W cwd = Ok ns → ∃ s, ns = str_split 47 s.
Proof.
  unfold cwd_components. intros Hc.
  destruct (getenv W (u "HOME")) as [home|];
    destruct cwd as [[|c s]|]; try destruct (getenv W (u "PWD")) as [pwd|];
    try done.
  all: destruct (str_find _ _ =? 0)%Z.
  all: try (destruct (str_replace1 _ _ _); [done|]).
  all: try (destruct pwd; [done|]).
  all: injection Hc as <-; by eexists.
Qed.

Lemma cwd_names_cons W cwd maxdepth names :
  cwd_names W cwd maxdepth = Ok names → ∃ front name, names = front ++ [name].
Proof.
  unfold cwd_names. destruct (cwd_components W cwd) as [ns|] eqn:Hc; [|done].
  intros [= <-].
  assert (Hns : ns ≠ []).
  { destruct (cwd_components_split _ _ _ Hc) as [s ->].
    by destruct (str_split_cons 47 s) as (w & ws & ->). }
  assert (Hcol : collapse ns maxdepth ≠ []).
  { unfold collapse. destruct (maxdepth <? _)%Z; [|done].
    destruct ns as [|a [|b ns']]; done. }
  destruct (collapse ns maxdepth) as [|x l] using rev_ind; [done|].
  by eexists _, _.
Qed.

Lemma seq_lookup_take {A} (f : nat → A → Segment) (names : list A) (d : A) k :
  k ≤ length names →
  (fun n => f n (default d (names !! n))) <$> seq 0 k
  = imap f (take k names).
Proof.
  intros Hk. apply list_eq. intros i.
  rewrite list_lookup_fmap, list_lookup_imap.
  destruct (decide (i < k)) as [Hi|Hi].
  - rewrite lookup_seq_lt by done. rewrite lookup_take_lt by done. simpl.
    destruct (lookup_lt_is_Some_2 names i ltac:(lia)) as [x Hx].
    by rewrite Hx.
  - rewrite lookup_seq_ge by lia. rewrite lookup_take_ge by lia. done.
Qed.

(** [add_cwd_segment] appends one segment for each name when [cwd_only]
    is off, and one segment for the last name when it is on; the
    segments show the names in their order, each between two spaces,
    the last one on the background of the current directory and the
    others on that of the path. Nothing else of the state changes. *)
Theorem add_cwd_segment_contents W powerline cwd maxdepth cwd_only st names :
  cwd_names W cwd maxdepth = Ok names →
  ∃ h' new,
    add_cwd_segment W powerline cwd maxdepth cwd_only st
    = (Ok tt, mkState h' (st_p st) (st_log st))
    ∧ h' powerline
      = with_segments (st_heap st powerline)
          (Powerline_segments (st_heap st powerline) ++ new)
    ∧ Segment_content <$> new
      = spaced <$> (if cwd_only then drop (length names - 1) names else names)
    ∧ Segment_bg <$> new
      = (if cwd_only then []
         else replicate (length names - 1) Color.PATH_BG) ++ [Color.CWD_BG].
Proof.
  intros Hn. destruct (cwd_names_cons _ _ _ _ Hn) as (front & name & ->).
  unfold add_cwd_segment, lift. unfold bind at 1. rewrite Hn.
  assert (Hlast : last (front ++ [name]) = Some name) by apply last_snoc.
  assert (Hlen : length (front ++ [name]) - 1 = length front).
  { rewrite length_app. simpl. lia. }
  destruct cwd_only.
  - unfold bind, ret, get_heap, update_heap. rewrite Hlast. simpl.
    eexists _, [_]. split; [reflexivity|].
    split; [apply Powerline_append_lookup|].
    rewrite Hlen, drop_app_length. done.
  - destruct (for_range_add_path_segment powerline (front ++ [name])
                (seq 0 (length front))) with (st := st) as (h1 & Hrun & Hh1).
    { apply Forall_forall. intros n Hin. apply elem_of_seq in Hin.
      apply lookup_lt_is_Some. rewrite length_app. simpl. lia. }
    assert (Hslice : slice_to (front ++ [name]) (-1) = front).
    { unfold slice_to. change (-1 <? 0)%Z with true.
      change (Z.to_nat (- -1)) with 1. cbv iota. rewrite Hlen.
      apply take_app_length. }
    rewrite Hslice.
    unfold bind at 1. rewrite Hrun.
    unfold bind, get_heap, update_heap. rewrite Hlast. simpl.
    eexists _, _. split; [reflexivity|].
    split.
    { rewrite Powerline_append_lookup, Hh1. simpl.
      rewrite <- app_assoc. reflexivity. }
    rewrite (seq_lookup_take
               (fun n x => path_segment powerline (st_heap st powerline) x
                             (Z.of_nat n =? Z.of_nat (length (front ++ [name])) - 2)%Z)
               (front ++ [name]) [] (length front))
      by (rewrite length_app; lia).
    rewrite take_app_length, !fmap_app, Hlen. simpl.
    split; f_equal.
    + apply list_eq. intros i.
      rewrite !list_lookup_fmap, list_lookup_imap.
      by destruct (front !! i).
    + apply list_eq. intros i.
      rewrite !list_lookup_fmap, list_lookup_imap.
      destruct (front !! i) eqn:Hi; simpl.
      * rewrite lookup_replicate_2; [done|]. by eapply lookup_lt_Some.
      * symmetry. apply lookup_replicate_None.
        apply lookup_ge_None in Hi. lia.
Qed.

Lemma add_cwd_segment_contents_witness :
  cwd_names plain_world (Some (u "/home/u/src/lib")) 4
  = Ok [u "~"; u "src"; u "lib"]
  ∧ ∃ h' new,
      add_cwd_segment plain_world 0 (Some (u "/home/u/src/lib")) 4 false
        example_state
      = (Ok tt, mkState h' (st_p example_state) (st_log example_state))
      ∧ h' 0
        = with_segments (st_heap example_state 0)
            (Powerline_segments (st_heap example_state 0) ++ new)
      ∧ Segment_content <$> new = spaced <$> [u "~"; u "src"; u "lib"]
      ∧ Segment_bg <$> new
        = replicate (3 - 1) Color.PATH_BG ++ [Color.CWD_BG].
Proof.
  split; [reflexivity|].
  apply (add_cwd_segment_contents plain_world 0 (Some (u "/home/u/src/lib")) 4
           false example_state [u "~"; u "src"; u "lib"]).
  reflexivity.
Defined.

(** Without [HOME] in the environment [add_cwd_segment] raises
    [TypeError] (from [cwd.find(None)]) and appends nothing. *)
Theorem add_cwd_segment_no_home W powerline c s maxdepth cwd_only st :
  getenv W (u "HOME") = None →
  add_cwd_segment W powerline (Some (c :: s)) maxdepth cwd_only st
  = (Raise TypeError, st).
Proof.
  intros Hhome. unfold add_cwd_segment, lift, bind, cwd_names, cwd_components.
  by rewrite Hhome.
Qed.

Lemma add_cwd_segment_no_home_witness :
  getenv no_home_world (u "HOME") = None
  ∧ add_cwd_segment no_home_world 0 (Some (u "/tmp")) 4 false example_state
    = (Raise TypeError, example_state).
Proof.
  split; [reflexivity|].
  apply (add_cwd_segment_no_home no_home_world 0 47%N (u "tmp") 4 false
           example_state).
  reflexivity.
Defined.

(** ** The status parsers, in general *)

Section GitStatusFacts.
Variable decimal : N -> option N.
Hypothesis Htable : table_ok decimal.

(** The loop of [get_git_status] raises [ValueError] exactly when the
    count on some line has more digits than [int()] converts; otherwise
    it reports pending commits unless some line of the text has
    [nothing to commit] in it, and untracked files exactly when some
    line has [Untracked files] in it. *)
Theorem parse_git_status_flags text :
  if existsb (count_too_long decimal) (str_split 10 text)
  then parse_git_status decimal text = Raise ValueError
  else ∃ origin_position,
         parse_git_status decimal text
         = Ok (negb (some_line_has (u "nothing to commit") text),
               some_line_has (u "Untracked files") text,
               origin_position).
Proof.
  unfold parse_git_status, some_line_has.
  exact (for_lines_flags decimal Htable (str_split 10 text) true false []).
Qed.

(** A line that says how far the branch is ahead or behind is matched
    with the direction and the number as its groups, for every count
    [n], every text between the word and the number that has no digit
    and no newline, and whatever follows [comm]; the turn of the loop
    then sets the badge to a space, [n] in decimal and the arrow of the
    word, unless [n] has more digits than [int()] converts: then it
    raises [ValueError]. *)
Theorem git_status_line_count (behind : bool) (n : nat) middle rest acc :
  Forall (fun c => isdigit decimal c = false ∧ c ≠ 10%N) middle →
  let word := if behind then u "behind" else u "ahead" in
  let arrow := if behind then 0x21E3%N else 0x21E1%N in
  let line := u "Your branch is " ++ word ++ middle
                ++ dec (Z.of_nat n) ++ u " comm" ++ rest in
  origin_status decimal line = Some (word, dec (Z.of_nat n))
  ∧ if (max_str_digits <? Z.of_nat (length (dec (Z.of_nat n))))%Z
    then git_status_line decimal acc line = Raise ValueError
    else ∃ p q,
           git_status_line decimal acc line
           = Ok (p, q, u " " ++ dec (Z.of_nat n) ++ [arrow]).
Proof.
  intros Hm word arrow line.
  assert (Hds : Forall ascii_digit (dec (Z.of_nat n)) ∧ dec (Z.of_nat n) ≠ []).
  { unfold dec.
    replace (Z.of_nat n <? 0)%Z with false by (symmetry; apply Z.ltb_ge; lia).
    split; [by apply dec_digits_ascii|].
    destruct (dec_digits_cons (N.to_nat (N.log2 (Z.to_N (Z.of_nat n))))
                (Z.to_N (Z.of_nat n)) []) as (c & s & Hcs).
    unfold dec_N. by rewrite Hcs. }
  destruct Hds as [Hds Hne].
  assert (Ho : origin_status decimal line = Some (word, dec (Z.of_nat n))).
  { apply origin_status_here.
    exact (match_here_count decimal Htable behind _ middle rest Hne Hds Hm). }
  split; [exact Ho|].
  destruct acc as [[p q] pos]. unfold git_status_line. rewrite Ho.
  rewrite (py_int_dec_nat _ Htable n).
  destruct (max_str_digits <? _)%Z; [done|].
  eexists _, _. unfold word, arrow. by destruct behind.
Qed.
End GitStatusFacts.

Lemma parse_git_status_flags_witness :
  table_ok ascii_decimal
  ∧ ∃ origin_position,
      parse_git_status ascii_decimal git_status_text_untracked
      = Ok (negb (some_line_has (u "nothing to commit")
                    git_status_text_untracked),
            some_line_has (u "Untracked files") git_status_text_untracked,
            origin_position).
Proof.
  split; [exact ascii_table_ok|].
  exact (parse_git_status_flags ascii_decimal ascii_table_ok
           git_status_text_untracked).
Defined.

Lemma git_status_line_count_witness :
  Forall (fun c => isdigit ascii_decimal c = false ∧ c ≠ 10%N)
    (u " 'origin/main' by ")
  ∧ origin_status ascii_decimal
      (u "Your branch is " ++ u "behind" ++ u " 'origin/main' by "
         ++ dec (Z.of_nat 12) ++ u " comm" ++ u "its, and can be fast-forwarded.")
    = Some (u "behind", dec (Z.of_nat 12))
  ∧ ∃ p q,
      git_status_line ascii_decimal (true, false, [])
        (u "Your branch is " ++ u "behind" ++ u " 'origin/main' by "
           ++ dec (Z.of_nat 12) ++ u " comm"
           ++ u "its, and can be fast-forwarded.")
      = Ok (p, q, u " " ++ dec (Z.of_nat 12) ++ [0x21E3%N]).
Proof.
  assert (Hm : Forall (fun c => isdigit ascii_decimal c = false ∧ c ≠ 10%N)
                 (u " 'origin/main' by ")).
  { repeat constructor; done. }
  split; [exact Hm|].
  exact (git_status_line_count ascii_decimal ascii_table_ok true 12
           (u " 'origin/main' by ") (u "its, and can be fast-forwarded.")
           (true, false, []) Hm).
Defined.

(** [get_hg_status] reports untracked files exactly when some line
    starts with [?], missing files exactly when some line starts with
    [!], and modified files exactly when some line that is not empty
    starts with anything else. *)
Theorem parse_hg_status_flags text :
  parse_hg_status text
  = (some_line_starts (fun c => negb (eqc c 63) && negb (eqc c 33)) text,
     some_line_starts (fun c => eqc c 63) text,
     some_line_starts (fun c => negb (eqc c 63) && eqc c 33) text).
Proof.
  unfold parse_hg_status, some_line_starts.
  assert (Hgen : ∀ lines m q r,
    foldl hg_status_line (m, q, r) lines
    = (m || existsb (fun line => match line with
                                 | c :: _ => negb (eqc c 63) && negb (eqc c 33)
                                 | [] => false
                                 end) lines,
       q || existsb (fun line => match line with
                                 | c :: _ => eqc c 63
                                 | [] => false
                                 end) lines,
       r || existsb (fun line => match line with
                                 | c :: _ => negb (eqc c 63) && eqc c 33
                                 | [] => false
                                 end) lines)).
  { induction lines as [|l lines IH]; intros m q r.
    - simpl. by rewrite !orb_false_r.
    - destruct l as [|c l].
      + change (foldl hg_status_line (m, q, r) ([] :: lines))
          with (foldl hg_status_line (m, q, r) lines).
        rewrite IH. reflexivity.
      + change (foldl hg_status_line (m, q, r) ((c :: l) :: lines))
          with (foldl hg_status_line
                  (if eqc c 63 then (m, true, r)
                   else if eqc c 33 then (m, q, true) else (true, q, r))
                  lines).
        cbn [existsb].
        destruct (eqc c 63), (eqc c 33); rewrite IH; simpl;
          destruct m, q, r; reflexivity. }
  apply Hgen.
Qed.

(** ** The detectors when there is nothing to show or something fails *)

Lemma has_star_split text :
  has_star text = false →
  Forall (fun l => has_star l = false) (str_split 10 text).
Proof.
  unfold has_star. induction text as [|c text IH]; intros Hs.
  - by repeat constructor.
  - cbn [existsb] in Hs. apply orb_false_iff in Hs as [Hc Hs].
    specialize (IH Hs). cbn [str_split].
    destruct (eqc c 10); [by constructor|].
    destruct (str_split 10 text) as [|w ws].
    + constructor; [|done]. cbn [existsb]. by rewrite Hc.
    + apply Forall_cons in IH as [Hw Hws].
      constructor; [|done]. cbn [existsb]. by rewrite Hc, Hw.
Qed.

Lemma grep_none sel text :
  Forall (fun l => sel l = false) (str_split 10 text) → grep sel text = [].
Proof.
  intros Hall. unfold grep.
  assert (Hl : Forall (fun l => sel l = false) (text_lines text)).
  { assert (Hrev : Forall (fun l => sel l = false)
                     (reverse (str_split 10 text)))
      by (by apply Forall_reverse).
    unfold text_lines.
    destruct (reverse (str_split 10 text)) as [|[|c w] r]; try done.
    apply Forall_cons in Hrev as [_ Hr]. by apply Forall_reverse. }
  induction Hl as [|l ls Hl _ IH]; [done|].
  rewrite filter_cons_False by (by rewrite Hl). exact IH.
Qed.

Lemma add_git_segment_no_output W powerline cwd st o1 o2 :
  World_start W (st_log st) GitBranch = inl o1 →
  World_start W (st_log st ++ [GitBranch]) GrepStar = inl o2 →
  bytes_strip (grep has_star (stdout o1)) = [] →
  add_git_segment W powerline cwd st
  = (Ok (Some false),
     mkState (st_heap st) (st_p st) (st_log st ++ [GitBranch; GrepStar])).
Proof.
  intros H1 H2 Hs. unfold add_git_segment. popen_ok H1. popen_ok H2.
  rewrite Hs. unfold ret. simpl. by rewrite <- app_assoc.
Qed.

(** When what [git branch] writes has no asterisk (as it does outside a
    repository), [add_git_segment] returns [False]: nothing is appended
    and [git status] is not started. *)
Theorem add_git_segment_absent W powerline cwd st o1 o2 :
  World_start W (st_log st) GitBranch = inl o1 →
  World_start W (st_log st ++ [GitBranch]) GrepStar = inl o2 →
  has_star (stdout o1) = false →
  add_git_segment W powerline cwd st
  = (Ok (Some false),
     mkState (st_heap st) (st_p st) (st_log st ++ [GitBranch; GrepStar])).
Proof.
  intros H1 H2 Hs. apply (add_git_segment_no_output _ _ _ _ o1 o2); try done.
  by rewrite (grep_none _ _ (has_star_split _ Hs)).
Qed.

Lemma add_git_segment_absent_witness :
  has_star (stdout (mkOutput [] [] I)) = false
  ∧ add_git_segment plain_world 0 None example_state
    = (Ok (Some false),
       mkState (st_heap example_state) (st_p example_state)
         (st_log example_state ++ [GitBranch; GrepStar])).
Proof.
  split; [reflexivity|].
  apply (add_git_segment_absent plain_world 0 None example_state
           (mkOutput [] [] I) (mkOutput [] [] I)); reflexivity.
Defined.

(** In a clean clone ([nothing to commit] on some line, no
    [Untracked files] line, no line about being ahead or behind) the
    git segment shows the branch name alone, in the colours of a clean
    repository. *)
Theorem add_git_segment_clean W powerline cwd st o1 o2 o3 c s :
  table_ok (World_decimal W) →
  World_start W (st_log st) GitBranch = inl o1 →
  World_start W (st_log st ++ [GitBranch]) GrepStar = inl o2 →
  bytes_strip (grep has_star (stdout o1)) = c :: s →
  World_start W ((st_log st ++ [GitBranch]) ++ [GrepStar]) GitStatus = inl o3 →
  some_line_has (u "nothing to commit") (stdout o3) = true →
  some_line_has (u "Untracked files") (stdout o3) = false →
  Forall (fun l => origin_status (World_decimal W) l = None)
    (str_split 10 (stdout o3)) →
  ∃ st' seg,
    add_git_segment W powerline cwd st = (Ok (Some true), st')
    ∧ Powerline_segments_right (st_heap st' powerline)
      = Powerline_segments_right (st_heap st powerline) ++ [seg]
    ∧ Segment_content seg = spaced (slice_from (str_rstrip (c :: s)) 2)
    ∧ Segment_fg seg = Color.REPO_CLEAN_FG
    ∧ Segment_bg seg = Color.REPO_CLEAN_BG.
Proof.
  intros Htable H1 H2 Hout H3 Hclean Hunt Hnone.
  pose proof (for_lines_flags _ Htable (str_split 10 (stdout o3)) true false [])
    as Hflags.
  unfold some_line_has in Hclean, Hunt.
  destruct (for_lines_no_match _ (str_split 10 (stdout o3)) (true, false, [])
              Hnone) as (p & q & Hpos).
  destruct (existsb (count_too_long _) _); [by rewrite Hflags in Hpos|].
  destruct Hflags as [pos Hflags].
  rewrite Hflags in Hpos. injection Hpos as _ _ ->.
  rewrite Hclean, Hunt in Hflags.
  pose proof (add_git_segment_present W powerline cwd st o1 o2 o3 c s _
                H1 H2 Hout H3 Hflags) as Hrun.
  eexists _, _. split; [exact Hrun|]. simpl.
  rewrite Powerline_append_right_lookup. simpl.
  split; [reflexivity|]. unfold git_label. simpl.
  by rewrite !app_nil_r.
Qed.

Lemma add_git_segment_clean_witness :
  table_ok ascii_decimal
  ∧ bytes_strip (grep has_star git_branch_text) = u "* main"
  ∧ some_line_has (u "nothing to commit")
      (u "On branch main" ++ [10%N] ++ u "nothing to commit, working tree clean")
    = true
  ∧ ∃ st' seg,
      add_git_segment
        (mkWorld ascii_decimal example_getenv
           (fun _ c =>
              match c with
              | GitBranch => inl (mkOutput git_branch_text [] I)
              | _ => inl (mkOutput
                            (u "On branch main" ++ [10%N]
                               ++ u "nothing to commit, working tree clean")
                            [] I)
              end))
        0 None example_state = (Ok (Some true), st')
      ∧ Powerline_segments_right (st_heap st' 0)
        = Powerline_segments_right (st_heap example_state 0) ++ [seg]
      ∧ Segment_content seg = spaced (slice_from (str_rstrip (u "* main")) 2)
      ∧ Segment_fg seg = Color.REPO_CLEAN_FG
      ∧ Segment_bg seg = Color.REPO_CLEAN_BG.
Proof.
  split; [exact ascii_table_ok|]. split; [reflexivity|].
  split; [reflexivity|].
  apply (add_git_segment_clean
           (mkWorld ascii_decimal example_getenv
              (fun _ c =>
                 match c with
                 | GitBranch => inl (mkOutput git_branch_text [] I)
                 | _ => inl (mkOutput
                               (u "On branch main" ++ [10%N]
                                  ++ u "nothing to commit, working tree clean")
                               [] I)
                 end))
           0 None example_state (mkOutput git_branch_text [] I)
           (mkOutput (u "On branch main" ++ [10%N]
                        ++ u "nothing to commit, working tree clean") [] I)
           (mkOutput (u "On branch main" ++ [10%N]
                        ++ u "nothing to commit, working tree clean") [] I)
           42%N (u " main")); try reflexivity.
  - exact ascii_table_ok.
  - repeat constructor.
Defined.

Lemma add_svn_segment_not_detected W powerline cwd st o1 c s :
  World_start W (st_log st) SvnStatus = inl o1 →
  bytes_strip (stderr o1) = c :: s →
  add_svn_segment W powerline cwd st
  = (Ok None, mkState (st_heap st) (st_p st) (st_log st ++ [SvnStatus])).
Proof.
  intros H1 He. unfold add_svn_segment. popen_ok H1. by rewrite He.
Qed.

(** [add_svn_segment] outside a working copy and under failures: error
    output from [svn status] makes it return [None] after that one
    process; a failure to start that first process is raised to the
    caller; a failure to start the second [svn status] or the [grep] is
    caught inside and makes it return [False]. In none of these cases is
    a segment appended. *)
Theorem add_svn_segment_nothing W powerline cwd st :
  (∀ o1 c s,
     World_start W (st_log st) SvnStatus = inl o1 →
     bytes_strip (stderr o1) = c :: s →
     add_svn_segment W powerline cwd st
     = (Ok None, mkState (st_heap st) (st_p st) (st_log st ++ [SvnStatus])))
  ∧ (∀ f,
       World_start W (st_log st) SvnStatus = inr f →
       add_svn_segment W powerline cwd st
       = (Raise (failure_exn f),
          mkState (st_heap st) (st_p st) (st_log st ++ [SvnStatus])))
  ∧ (∀ o1 f,
       World_start W (st_log st) SvnStatus = inl o1 →
       bytes_strip (stderr o1) = [] →
       World_start W (st_log st ++ [SvnStatus]) SvnStatus = inr f →
       add_svn_segment W powerline cwd st
       = (Ok (Some false),
          mkState (st_heap st) (st_p st)
            (st_log st ++ [SvnStatus; SvnStatus])))
  ∧ (∀ o1 o2 f,
       World_start W (st_log st) SvnStatus = inl o1 →
       bytes_strip (stderr o1) = [] →
       World_start W (st_log st ++ [SvnStatus]) SvnStatus = inl o2 →
       World_start W ((st_log st ++ [SvnStatus]) ++ [SvnStatus]) GrepCount
       = inr f →
       add_svn_segment W powerline cwd st
       = (Ok (Some false),
          mkState (st_heap st) (st_p st)
            (st_log st ++ [SvnStatus; SvnStatus; GrepCount]))).
Proof.
  split; [|split; [|split]].
  - intros o1 c s H1 He. by eapply add_svn_segment_not_detected.
  - intros f H1. unfold add_svn_segment.
    erewrite bind_raise; [reflexivity|]. by apply Popen_fail.
  - intros o1 f H1 He H2. unfold add_svn_segment. popen_ok H1. rewrite He.
    change (negb (length (@nil N) =? 0)) with false. cbv iota.
    unfold try_except.
    erewrite bind_raise; [|apply Popen_fail; simpl st_log; exact H2].
    replace (process_error (failure_exn f)) with true by (by destruct f).
    unfold ret. simpl. by rewrite <- app_assoc.
  - intros o1 o2 f H1 He H2 H3. unfold add_svn_segment. popen_ok H1.
    rewrite He. change (negb (length (@nil N) =? 0)) with false. cbv iota.
    unfold try_except. popen_ok H2.
    erewrite bind_raise; [|apply Popen_fail; simpl st_log; exact H3].
    replace (process_error (failure_exn f)) with true by (by destruct f).
    unfold ret. simpl. by rewrite <- !app_assoc.
Qed.

Lemma add_svn_segment_nothing_witness :
  add_svn_segment plain_world 0 None example_state
  = (Ok None, mkState example_heap 0 [SvnStatus])
  ∧ add_svn_segment
      (mkWorld ascii_decimal example_getenv (fun _ _ => inr os_error))
      0 None example_state
    = (Raise OSError, mkState example_heap 0 [SvnStatus])
  ∧ add_svn_segment
      (mkWorld ascii_decimal example_getenv
         (fun log _ => match log with
                       | [] => inl (mkOutput [] [] I)
                       | _ => inr os_error
                       end))
      0 None example_state
    = (Ok (Some false), mkState example_heap 0 [SvnStatus; SvnStatus])
  ∧ add_svn_segment
      (mkWorld ascii_decimal example_getenv
         (fun _ c => match c with
                     | GrepCount => inr os_error
                     | _ => inl (mkOutput svn_status_text [] I)
                     end))
      0 None example_state
    = (Ok (Some false),
       mkState example_heap 0 [SvnStatus; SvnStatus; GrepCount]).
Proof.
  split; [|split; [|split]].
  - pose proof (add_svn_segment_nothing plain_world 0 None example_state)
      as (H & _).
    apply (H (mkOutput [] (u "svn: warning: W155007") I) 115%N
             (u "vn: warning: W155007")); reflexivity.
  - pose proof (add_svn_segment_nothing
                  (mkWorld ascii_decimal example_getenv
                     (fun _ _ => inr os_error)) 0 None example_state)
      as (_ & H & _).
    apply (H os_error). reflexivity.
  - pose proof (add_svn_segment_nothing
                  (mkWorld ascii_decimal example_getenv
                     (fun log _ => match log with
                                   | [] => inl (mkOutput [] [] I)
                                   | _ => inr os_error
                                   end)) 0 None example_state)
      as (_ & _ & H & _).
    apply (H (mkOutput [] [] I) os_error); reflexivity.
  - pose proof (add_svn_segment_nothing
                  (mkWorld ascii_decimal example_getenv
                     (fun _ c => match c with
                                 | GrepCount => inr os_error
                                 | _ => inl (mkOutput svn_status_text [] I)
                                 end)) 0 None example_state)
      as (_ & _ & _ & H).
    apply (H (mkOutput svn_status_text [] I) (mkOutput svn_status_text [] I)
             os_error); reflexivity.
Defined.

(** When the branch query of Mercurial writes nothing but whitespace,
    [add_hg_segment] returns [False]: nothing is appended and
    [hg status] is not started. *)
Theorem add_hg_segment_absent W powerline cwd st o1 :
  World_start W (st_log st) HgBranch = inl o1 →
  str_rstrip (stdout o1) = [] →
  add_hg_segment W powerline cwd st
  = (Ok (Some false),
     mkState (st_heap st) (st_p st) (st_log st ++ [HgBranch])).
Proof.
  intros H1 Hb. unfold add_hg_segment. popen_ok H1. by rewrite Hb.
Qed.

Lemma add_hg_segment_absent_witness :
  str_rstrip (stdout (mkOutput [] [] I)) = []
  ∧ add_hg_segment plain_world 0 None example_state
    = (Ok (Some false), mkState example_heap 0 [HgBranch]).
Proof.
  split; [reflexivity|].
  apply (add_hg_segment_absent plain_world 0 None example_state
           (mkOutput [] [] I)); reflexivity.
Defined.

(** In a Mercurial repository [add_hg_segment] appends one segment to
    the right row: the branch name, followed by a space and [+] for
    untracked files, [!] for missing files (both in that order when
    both occur), in the colours of a dirty repository when any file is
    modified, untracked or missing and in those of a clean one
    otherwise. *)
Theorem add_hg_segment_present W powerline cwd st o1 o2 c s :
  World_start W (st_log st) HgBranch = inl o1 →
  str_rstrip (stdout o1) = c :: s →
  World_start W (st_log st ++ [HgBranch]) HgStatus = inl o2 →
  add_hg_segment W powerline cwd st
  = (Ok (Some true),
     mkState
       (Powerline_append_right powerline
          (hg_segment powerline (st_heap st powerline) (c :: s)
             (parse_hg_status (stdout o2)))
          (st_heap st))
       (st_p st) (st_log st ++ [HgBranch; HgStatus])).
Proof.
  intros H1 Hb H2. unfold add_hg_segment. popen_ok H1. rewrite Hb.
  change (length (c :: s) =? 0) with false. cbv iota.
  unfold get_hg_status.
  erewrite bind_ok;
    [|erewrite bind_ok; [|apply Popen_ok; simpl st_log; exact H2];
      reflexivity].
  destruct (parse_hg_status (stdout o2)) as [[m q] r].
  unfold bind, get_heap, update_heap, ret. simpl.
  rewrite <- app_assoc. simpl.
  match goal with
  | |- context [Segment_init ?h ?l ?x ?fg ?bg ?sep ?sfg ?rt] =>
      replace (Segment_init h l x fg bg sep sfg rt)
        with (hg_segment powerline (st_heap st powerline) (c :: s) (m, q, r))
  end; [reflexivity|].
  unfold hg_segment, hg_label, Segment_init. simpl.
  destruct m, q, r; simpl; rewrite ?app_nil_r; reflexivity.
Qed.

Lemma add_hg_segment_present_witness :
  str_rstrip (u "default" ++ [10%N]) = u "default"
  ∧ parse_hg_status (u "? new.txt" ++ [10%N] ++ u "M changed.txt" ++ [10%N])
    = (true, true, false)
  ∧ add_hg_segment
      (mkWorld ascii_decimal example_getenv
         (fun _ c =>
            match c with
            | HgBranch => inl (mkOutput (u "default" ++ [10%N]) [] I)
            | _ => inl (mkOutput (u "? new.txt" ++ [10%N] ++ u "M changed.txt"
                                    ++ [10%N]) [] I)
            end))
      0 None example_state
    = (Ok (Some true),
       mkState
         (Powerline_append_right 0
            (hg_segment 0 example_powerline (u "default") (true, true, false))
            example_heap)
         0 [HgBranch; HgStatus]).
Proof.
  split; [reflexivity|]. split; [reflexivity|].
  apply (add_hg_segment_present
           (mkWorld ascii_decimal example_getenv
              (fun _ c =>
                 match c with
                 | HgBranch => inl (mkOutput (u "default" ++ [10%N]) [] I)
                 | _ => inl (mkOutput (u "? new.txt" ++ [10%N]
                                         ++ u "M changed.txt" ++ [10%N]) [] I)
                 end))
           0 None example_state (mkOutput (u "default" ++ [10%N]) [] I)
           (mkOutput (u "? new.txt" ++ [10%N] ++ u "M changed.txt" ++ [10%N]) [] I)
           100%N (u "efault")); reflexivity.
Defined.

(** In a directory with no repository at all (no starred branch, error
    output from [svn status], no Mercurial branch) [add_repo_segment]
    asks the three systems in turn, each with its presence test only,
    and appends nothing. *)
Theorem add_repo_segment_none W powerline cwd st o1 o2 o3 o4 c s :
  World_start W (st_log st) GitBranch = inl o1 →
  World_start W (st_log st ++ [GitBranch]) GrepStar = inl o2 →
  has_star (stdout o1) = false →
  World_start W (st_log st ++ [GitBranch; GrepStar]) SvnStatus = inl o3 →
  bytes_strip (stderr o3) = c :: s →
  World_start W ((st_log st ++ [GitBranch; GrepStar]) ++ [SvnStatus]) HgBranch
  = inl o4 →
  str_rstrip (stdout o4) = [] →
  add_repo_segment W powerline cwd st
  = (Ok tt,
     mkState (st_heap st) (st_p st)
       (st_log st ++ [GitBranch; GrepStar; SvnStatus; HgBranch])).
Proof.
  intros H1 H2 Hs H3 He H4 Hb.
  assert (Hg : add_git_segment W (st_p st) cwd st
               = (Ok (Some false),
                  mkState (st_heap st) (st_p st)
                    (st_log st ++ [GitBranch; GrepStar]))).
  { apply (add_git_segment_no_output _ _ _ _ o1 o2); try done.
    by rewrite (grep_none _ _ (has_star_split _ Hs)). }
  set (st1 := mkState (st_heap st) (st_p st)
                (st_log st ++ [GitBranch; GrepStar])) in *.
  pose proof (add_svn_segment_not_detected W (st_p st1) cwd st1 o3 c s H3 He)
    as Hsvn.
  set (st2 := mkState (st_heap st1) (st_p st1) (st_log st1 ++ [SvnStatus]))
    in *.
  assert (Hh : add_hg_segment W (st_p st2) cwd st2
               = (Ok (Some false),
                  mkState (st_heap st2) (st_p st2)
                    (st_log st2 ++ [HgBranch]))).
  { unfold add_hg_segment. popen_ok H4. by rewrite Hb. }
  unfold add_repo_segment.
  rewrite (dispatch_absent _ _ _ _ _ _ Hg eq_refl).
  rewrite (dispatch_absent _ _ _ _ _ _ Hsvn eq_refl).
  rewrite (dispatch_absent _ _ _ _ _ _ Hh eq_refl).
  simpl. unfold ret. by rewrite <- !app_assoc.
Qed.

Lemma add_repo_segment_none_witness :
  has_star (stdout (mkOutput [] [] I)) = false
  ∧ add_repo_segment plain_world 0 None example_state
    = (Ok tt,
       mkState example_heap 0 [GitBranch; GrepStar; SvnStatus; HgBranch]).
Proof.
  split; [reflexivity|].
  apply (add_repo_segment_none plain_world 0 None example_state
           (mkOutput [] [] I) (mkOutput [] [] I)
           (mkOutput [] (u "svn: warning: W155007") I) (mkOutput [] [] I)
           115%N (u "vn: warning: W155007")); reflexivity.
Defined.

(** ** The virtual environment and the root indicator *)

Lemma rfind_from_none c s : ∀ i best,
  existsb (eqc c) s = false → rfind_from c s i best = best.
Proof.
  induction s as [|x s IH]; intros i best Hs; [done|].
  cbn [existsb] in Hs. apply orb_false_iff in Hs as [Hx Hs].
  cbn [rfind_from]. unfold eqc in *. rewrite N.eqb_sym in Hx.
  rewrite Hx. by apply IH.
Qed.

Lemma rfind_from_last c dir name : ∀ i best,
  existsb (eqc c) name = false →
  rfind_from c (dir ++ c :: name) i best = (i + Z.of_nat (length dir))%Z.
Proof.
  induction dir as [|x dir IH]; intros i best Hn.
  - cbn [app rfind_from length]. unfold eqc at 1. rewrite N.eqb_refl.
    rewrite rfind_from_none by done. lia.
  - cbn [app rfind_from length]. rewrite IH by done. lia.
Qed.

Lemma basename_after_slash (dir name : str) :
  existsb (eqc 47) name = false → basename (dir ++ [47%N] ++ name) = name.
Proof.
  intros Hn. unfold basename, str_rfind, slice_from.
  cbn [app]. rewrite rfind_from_last by done.
  replace (0 + Z.of_nat (length dir) + 1 <? 0)%Z with false
    by (symmetry; apply Z.ltb_ge; lia).
  replace (Z.to_nat (0 + Z.of_nat (length dir) + 1)) with (S (length dir))
    by lia.
  change (dir ++ 47%N :: name) with (dir ++ [47%N] ++ name).
  rewrite app_assoc.
  replace (S (length dir)) with (length (dir ++ [47%N]))
    by (rewrite length_app; simpl; lia).
  apply drop_app_length.
Qed.

(** [os.path.basename]: a path without a slash is its own base name,
    and the base name of a directory, a slash and a name without a
    slash is that name (the empty name when the path ends in a slash). *)
Theorem basename_last_component (dir name : str) :
  existsb (eqc 47) name = false →
  basename name = name ∧ basename (dir ++ [47%N] ++ name) = name.
Proof.
  intros Hn. split; [|by apply basename_after_slash].
  unfold basename, str_rfind, slice_from.
  rewrite rfind_from_none by done. reflexivity.
Qed.

Lemma basename_last_component_witness :
  existsb (eqc 47) (u "venv") = false
  ∧ basename (u "venv") = u "venv"
  ∧ basename (u "/home/u/.virtualenvs" ++ [47%N] ++ u "venv") = u "venv".
Proof.
  split; [reflexivity|].
  apply (basename_last_component (u "/home/u/.virtualenvs") (u "venv")).
  reflexivity.
Defined.

(** The segment of [add_virtual_env_segment] for the name [env_name]. *)
Lemma add_virtual_env_segment_run W powerline cwd st env :
  getenv W (u "VIRTUAL_ENV") = Some env →
  ∃ seg,
    add_virtual_env_segment W powerline cwd st
    = (Ok true,
       mkState (Powerline_append_right powerline seg (st_heap st))
         (st_p st) (st_log st))
    ∧ Segment_content seg = spaced (basename env)
    ∧ Segment_fg seg = Color.VIRTUAL_ENV_FG
    ∧ Segment_bg seg = Color.VIRTUAL_ENV_BG
    ∧ Segment_right seg = true.
Proof.
  intros He. unfold add_virtual_env_segment. rewrite He.
  unfold bind, get_heap, update_heap, ret. simpl.
  eexists. split; [reflexivity|]. done.
Qed.

(** Without [VIRTUAL_ENV] in the environment
    [add_virtual_env_segment] returns [False] and changes nothing; with
    it, one segment is appended to the right row that shows what
    follows the last slash of the value. *)
Theorem add_virtual_env_segment_name W powerline cwd st :
  (getenv W (u "VIRTUAL_ENV") = None →
   add_virtual_env_segment W powerline cwd st = (Ok false, st))
  ∧ (∀ dir name,
       getenv W (u "VIRTUAL_ENV") = Some (dir ++ [47%N] ++ name) →
       existsb (eqc 47) name = false →
       ∃ st' seg,
         add_virtual_env_segment W powerline cwd st = (Ok true, st')
         ∧ Powerline_segments_right (st_heap st' powerline)
           = Powerline_segments_right (st_heap st powerline) ++ [seg]
         ∧ Powerline_segments (st_heap st' powerline)
           = Powerline_segments (st_heap st powerline)
         ∧ Segment_content seg = spaced name).
Proof.
  split.
  - intros He. unfold add_virtual_env_segment. by rewrite He.
  - intros dir name He Hn.
    destruct (add_virtual_env_segment_run W powerline cwd st _ He)
      as (seg & Hrun & Hc & _).
    eexists _, seg. split; [exact Hrun|]. simpl.
    rewrite Powerline_append_right_lookup. simpl.
    split; [done|]. split; [done|].
    rewrite Hc. f_equal. by apply basename_after_slash.
Qed.

Lemma add_virtual_env_segment_name_witness :
  add_virtual_env_segment plain_world 0 None example_state
  = (Ok false, example_state)
  ∧ ∃ st' seg,
      add_virtual_env_segment venv_world 0 None example_state = (Ok true, st')
      ∧ Powerline_segments_right (st_heap st' 0)
        = Powerline_segments_right (st_heap example_state 0) ++ [seg]
      ∧ Powerline_segments (st_heap st' 0)
        = Powerline_segments (st_heap example_state 0)
      ∧ Segment_content seg = spaced (u "venv").
Proof.
  split.
  - pose proof (add_virtual_env_segment_name plain_world 0 None example_state)
      as [Hnone _].
    apply Hnone. reflexivity.
  - pose proof (add_virtual_env_segment_name venv_world 0 None example_state)
      as [_ Hsome].
    apply (Hsome (u "/home/u/.virtualenvs") (u "venv")); reflexivity.
Defined.

Lemma Powerline_append_down_lookup l seg (h : heap) :
  Powerline_append_down l seg h l
  = with_segments_down (h l) (Powerline_segments_down (h l) ++ [seg]).
Proof. unfold Powerline_append_down. apply fn_lookup_insert. Qed.


(** [add_root_indicator] appends one segment to the indicator row: the
    root indicator of the shell, in the colours of a passed command when
    the previous exit code reads as [0] and in those of a failed one
    otherwise; an exit code that [int()] rejects raises and appends
    nothing. The left and the right row are not touched. *)
Theorem add_root_indicator_colours W powerline error st :
  match py_int (World_decimal W) error with
  | Raise e => add_root_indicator W powerline error st = (Raise e, st)
  | Ok n =>
      ∃ st' seg,
        add_root_indicator W powerline error st = (Ok tt, st')
        ∧ Powerline_segments_down (st_heap st' powerline)
          = Powerline_segments_down (st_heap st powerline) ++ [seg]
        ∧ Powerline_segments (st_heap st' powerline)
          = Powerline_segments (st_heap st powerline)
        ∧ Powerline_segments_right (st_heap st' powerline)
          = Powerline_segments_right (st_heap st powerline)
        ∧ Segment_content seg = Powerline_root_indicator (st_heap st powerline)
        ∧ (Segment_fg seg, Segment_bg seg)
          = (if (n =? 0)%Z
             then (Color.CMD_PASSED_FG, Color.CMD_PASSED_BG)
             else (Color.CMD_FAILED_FG, Color.CMD_FAILED_BG))
  end.
Proof.
  unfold add_root_indicator, bind, lift.
  destruct (py_int (World_decimal W) error) as [n|e]; [|done].
  unfold get_heap, update_heap. eexists _, _. split; [reflexivity|].
  simpl. rewrite Powerline_append_down_lookup. simpl.
  repeat split. by destruct (n =? 0)%Z.
Qed.

(** ** The constructor *)

Lemma dict_get_three {V} (a b c : str) (x y z : V) (k : str) :
  dict_get (list_to_map [(a, x); (b, y); (c, z)] : gmap str V) k
  = if decide (k = a) then Ok x
    else if decide (k = b) then Ok y
    else if decide (k = c) then Ok z
    else Raise KeyError.
Proof.
  unfold dict_get. cbn [list_to_map foldr fst snd uncurry].
  rewrite !lookup_insert, lookup_empty.
  repeat case_decide; simplify_eq; done.
Qed.

Lemma dict_get_two {V} (a b : str) (x y : V) (k : str) :
  dict_get (list_to_map [(a, x); (b, y)] : gmap str V) k
  = if decide (k = a) then Ok x
    else if decide (k = b) then Ok y
    else Raise KeyError.
Proof.
  unfold dict_get. cbn [list_to_map foldr fst snd uncurry].
  rewrite !lookup_insert, lookup_empty.
  repeat case_decide; simplify_eq; done.
Qed.

(** [Powerline(mode, shell, width)] raises [KeyError] for every shell
    other than bash, zsh and bare and for every mode other than
    compatible and patched; for the others it returns an instance whose
    three rows are empty and whose width is the one given. *)
Theorem Powerline_init_keys (mode shell : str) (width : pyval) :
  if bool_decide (shell ∈ [u "bash"; u "zsh"; u "bare"]
                  ∧ mode ∈ [u "compatible"; u "patched"])
  then ∃ pw,
         Powerline_init mode shell width = Ok pw
         ∧ Powerline_segments pw = []
         ∧ Powerline_segments_right pw = []
         ∧ Powerline_segments_down pw = []
         ∧ Powerline_width pw = width
         ∧ Powerline_shell pw = shell
  else Powerline_init mode shell width = Raise KeyError.
Proof.
  case_bool_decide as Hk.
  - destruct Hk as [Hs Hm]. set_unfold in Hs. set_unfold in Hm.
    destruct Hs as [-> | [-> | [-> | []]]]; destruct Hm as [-> | [-> | []]];
      vm_compute; eexists; repeat split.
  - unfold Powerline_init, color_templates, root_indicators, symbols.
    rewrite !dict_get_three, dict_get_two.
    repeat case_decide; subst; try done;
      exfalso; apply Hk; set_solver.
Qed.

(** ** get_valid_cwd *)

Lemma str_join_split c s : str_join [c] (str_split c s) = s.
Proof.
  induction s as [|x s IH]; [done|].
  cbn [str_split]. destruct (str_split_cons c s) as (w & ws & Hs).
  rewrite Hs in IH |- *. unfold eqc. destruct (N.eqb_spec x c) as [->|Hx].
  - change (str_join [c] ([] :: w :: ws))
      with ([] ++ [c] ++ str_join [c] (w :: ws)).
    by rewrite IH.
  - destruct ws as [|w' ws].
    + simpl in *. by rewrite IH.
    + change (str_join [c] ((x :: w) :: w' :: ws))
        with ((x :: w) ++ [c] ++ str_join [c] (w' :: ws)).
      change (str_join [c] (w :: w' :: ws))
        with (w ++ [c] ++ str_join [c] (w' :: ws)) in IH.
      by rewrite <- IH.
Qed.

Lemma walk_up_lowest path_exists (parts : list str) k :
  k ≤ length parts →
  ∃ k', k' ≤ k
    ∧ walk_up path_exists (reverse (take k parts))
        (str_join (u "/") (take k parts))
      = str_join (u "/") (take k' parts)
    ∧ (path_exists (str_join (u "/") (take k' parts)) = true ∨ k' = 0)
    ∧ ∀ j, k' < j ≤ k →
           path_exists (str_join (u "/") (take j parts)) = false.
Proof.
  induction k as [|k IH]; intros Hk.
  - exists 0. split; [done|]. rewrite take_0. split; [done|].
    split; [by right|]. intros j Hj. lia.
  - destruct (lookup_lt_is_Some_2 parts k ltac:(lia)) as [x Hx].
    rewrite (take_S_r _ _ _ Hx), reverse_snoc.
    cbn [walk_up]. rewrite reverse_involutive.
    destruct (path_exists (str_join (u "/") (take k parts ++ [x]))) eqn:He.
    + exists (S k). split; [done|]. rewrite (take_S_r _ _ _ Hx).
      split; [done|]. split; [by left|]. intros j Hj. lia.
    + destruct (IH ltac:(lia)) as (k' & Hk' & Hw & Hex & Hall).
      exists k'. split; [lia|]. split; [exact Hw|]. split; [exact Hex|].
      intros j Hj. destruct (decide (j = S k)) as [->|Hne].
      * by rewrite (take_S_r _ _ _ Hx).
      * apply Hall. lia.
Qed.

(** When [os.getcwd()] fails, [get_valid_cwd] tries [PWD] and then the
    paths made of fewer and fewer of its components until one exists;
    it changes to that path (the longest one that exists, or the empty
    path when none does) and returns [PWD] itself after a warning that
    names the path; when the change of directory fails it warns and
    exits with code 1. *)
Theorem get_valid_cwd_lowest W H cwd :
  Host_getcwd H = None →
  getenv W (u "PWD") = Some cwd →
  let parts := str_split 47 cwd in
  ∃ k,
    k ≤ length parts
    ∧ let up := str_join (u "/") (take k parts) in
      (Host_exists H up = true ∨ k = 0)
      ∧ (∀ j, k < j ≤ length parts →
              Host_exists H (str_join (u "/") (take j parts)) = false)
      ∧ get_valid_cwd W H
        = if Host_chdir H up then
            Cwd cwd
              (warn (u "Your current directory is invalid. Lowest valid directory: "
                       ++ up))
              (Some up)
          else CwdExit 1 (warn (u "Your current directory is invalid.")).
Proof.
  intros Hg Hpwd parts.
  destruct (walk_up_lowest (Host_exists H) parts (length parts) ltac:(lia))
    as (k & Hk & Hw & Hex & Hall).
  rewrite firstn_all in Hw.
  change (u "/") with [47%N] in Hw at 1. unfold parts in Hw at 2.
  rewrite str_join_split in Hw.
  exists k. split; [done|]. cbv zeta. split; [exact Hex|].
  split; [exact Hall|].
  unfold get_valid_cwd. rewrite Hg, Hpwd. fold parts. by rewrite Hw.
Qed.

Lemma get_valid_cwd_lowest_witness :
  Host_getcwd gone_host = None
  ∧ getenv gone_world (u "PWD") = Some (u "/home/u/gone/deep")
  ∧ get_valid_cwd gone_world gone_host
    = Cwd (u "/home/u/gone/deep")
        (warn (u "Your current directory is invalid. Lowest valid directory: "
                 ++ u "/home/u"))
        (Some (u "/home/u"))
  ∧ ∃ k,
      k ≤ length (str_split 47 (u "/home/u/gone/deep"))
      ∧ let up := str_join (u "/")
                    (take k (str_split 47 (u "/home/u/gone/deep"))) in
        (Host_exists gone_host up = true ∨ k = 0)
        ∧ (∀ j, k < j ≤ length (str_split 47 (u "/home/u/gone/deep")) →
                Host_exists gone_host
                  (str_join (u "/")
                     (take j (str_split 47 (u "/home/u/gone/deep")))) = false)
        ∧ get_valid_cwd gone_world gone_host
          = if Host_chdir gone_host up then
              Cwd (u "/home/u/gone/deep")
                (warn (u "Your current directory is invalid. Lowest valid directory: "
                         ++ up))
                (Some up)
            else CwdExit 1 (warn (u "Your current directory is invalid.")).
Proof.
  split; [reflexivity|]. split; [reflexivity|]. split; [reflexivity|].
  apply (get_valid_cwd_lowest gone_world gone_host (u "/home/u/gone/deep"));
    reflexivity.
Defined.

(** For an absolute [PWD] the root directory is never among the paths
    tried: the path of the first component alone is the empty path. So
    when neither [PWD] nor any of its ancestors below the root exists
    (and the empty path does not exist and cannot be changed to, as on
    any host), the program warns and exits with code 1. *)
Theorem get_valid_cwd_never_root W H rest :
  Host_getcwd H = None →
  getenv W (u "PWD") = Some (47%N :: rest) →
  Host_exists H [] = false →
  Host_chdir H [] = false →
  (∀ j, 2 ≤ j ≤ length (str_split 47 (47%N :: rest)) →
        Host_exists H
          (str_join (u "/") (take j (str_split 47 (47%N :: rest)))) = false) →
  str_join (u "/") (take 1 (str_split 47 (47%N :: rest))) = []
  ∧ get_valid_cwd W H
    = CwdExit 1 (warn (u "Your current directory is invalid.")).
Proof.
  intros Hg Hpwd Hempty Hchdir Hnone.
  assert (Hone : str_join (u "/") (take 1 (str_split 47 (47%N :: rest))) = []).
  { cbn [str_split]. change (eqc 47 47) with true. cbv iota. reflexivity. }
  split; [exact Hone|].
  destruct (walk_up_lowest (Host_exists H) (str_split 47 (47%N :: rest))
              (length (str_split 47 (47%N :: rest))) ltac:(lia))
    as (k & Hk & Hw & Hex & _).
  rewrite firstn_all in Hw.
  change (u "/") with [47%N] in Hw at 1. rewrite str_join_split in Hw.
  assert (Hk0 : k = 0).
  { destruct Hex as [Hex|]; [|done].
    destruct (decide (k = 0)) as [|Hk0]; [done|].
    destruct (decide (k = 1)) as [->|Hk1].
    - rewrite Hone in Hex. congruence.
    - rewrite Hnone in Hex by lia. done. }
  subst k. rewrite take_0 in Hw. cbn [str_join] in Hw.
  unfold get_valid_cwd. rewrite Hg, Hpwd. cbv zeta. by rewrite Hw, Hchdir.
Qed.

Lemma get_valid_cwd_never_root_witness :
  Host_getcwd (mkHost None (fun path => str_eqb path (u "/")) (fun _ => false) []
         (fun _ => true))
  = None
  ∧ str_join (u "/") (take 1 (str_split 47 (47%N :: u "home/u/gone/deep"))) = []
  ∧ get_valid_cwd gone_world
      (mkHost None (fun path => str_eqb path (u "/")) (fun _ => false) []
         (fun _ => true))
    = CwdExit 1 (warn (u "Your current directory is invalid.")).
Proof.
  split; [reflexivity|].
  apply (get_valid_cwd_never_root gone_world
           (mkHost None (fun path => str_eqb path (u "/")) (fun _ => false) []
         (fun _ => true))
           (u "home/u/gone/deep")); try reflexivity.
  intros j Hj. simpl in Hj.
  destruct j as [|[|[|[|[|[|j]]]]]]; try lia; reflexivity.
Defined.

(** ** The main program *)













(** ** One repository segment at most *)

Ltac run_detector :=
  repeat
    (match goal with
     | |- appends_once _ _ (_, _) =>
         first
           [ by (split; [reflexivity|left; reflexivity])
           | by (split; [reflexivity|];
                 right; split; [by eexists|];
                 eexists; first [left; reflexivity | right; reflexivity]) ]
     | |- context [World_start ?W ?log ?c] => destruct (World_start W log c)
     | |- context [match ?x with _ => _ end] =>
         lazymatch x with
         | context [match _ with _ => _ end] => fail
         | _ => destruct x
         end
     end;
     cbn [fst snd st_heap st_p st_log]).

Lemma add_git_segment_once W l cwd st :
  appends_once l st (add_git_segment W l cwd st).
Proof.
  unfold add_git_segment, get_git_status, bind, Popen, lift, ret, get_heap,
    update_heap.
  run_detector.
Qed.

Lemma add_svn_segment_once W l cwd st :
  appends_once l st (add_svn_segment W l cwd st).
Proof.
  unfold add_svn_segment, try_except, bind, Popen, lift, ret, get_heap,
    update_heap.
  run_detector.
Qed.

Lemma add_hg_segment_once W l cwd st :
  appends_once l st (add_hg_segment W l cwd st).
Proof.
  unfold add_hg_segment, get_hg_status, bind, Popen, lift, ret, get_heap,
    update_heap.
  run_detector.
Qed.

Lemma dispatch_once detectors cwd :
  Forall (fun d => ∀ l st, appends_once l st (d l cwd st)) detectors →
  ∀ st,
    let st' := (dispatch detectors cwd st).2 in
    st_p st' = st_p st
    ∧ (st_heap st' = st_heap st
       ∨ ∃ seg,
           st_heap st' = Powerline_append (st_p st) seg (st_heap st)
           ∨ st_heap st' = Powerline_append_right (st_p st) seg (st_heap st)).
Proof.
  induction 1 as [|d rest Hd _ IH]; intros st; [by split; [|left]|].
  pose proof (Hd (st_p st) st) as [Hp Hh].
  destruct (d (st_p st) cwd st) as [[v|e] st1] eqn:Hrun;
    cbn [fst snd] in Hp, Hh.
  - destruct (truthy v) eqn:Hv.
    + cbv zeta. rewrite (dispatch_found _ _ _ _ _ _ Hrun Hv). cbn [snd].
      split; [exact Hp|]. destruct Hh as [Hh | [_ Hh]]; [by left|by right].
    + cbv zeta. rewrite (dispatch_absent _ _ _ _ _ _ Hrun Hv).
      destruct Hh as [Hh | [(v' & [= <-] & Hv') _]]; [|congruence].
      specialize (IH st1). cbv zeta in IH. by rewrite Hp, Hh in IH.
  - destruct Hh as [Hh | [(v' & [=] & _) _]].
    destruct (process_error e) eqn:He.
    + cbv zeta. rewrite (dispatch_failed _ _ _ _ _ _ Hrun He).
      specialize (IH st1). cbv zeta in IH. by rewrite Hp, Hh in IH.
    + cbv zeta. cbn [dispatch]. unfold bind, try_except, get_p, ret.
      rewrite Hrun, He. cbn [snd]. split; [exact Hp|by left].
Qed.

(** Whatever the processes answer, and whether it returns or raises,
    [add_repo_segment] changes the store by at most one [append] or one
    [append_right] on the instance bound to [p]: the prompt never shows
    the segments of two version-control systems. The name [p] stays
    bound as it was. *)
Theorem add_repo_segment_at_most_one W powerline cwd st :
  let st' := (add_repo_segment W powerline cwd st).2 in
  st_p st' = st_p st
  ∧ (st_heap st' = st_heap st
     ∨ ∃ seg,
         st_heap st' = Powerline_append (st_p st) seg (st_heap st)
         ∨ st_heap st' = Powerline_append_right (st_p st) seg (st_heap st)).
Proof.
  apply dispatch_once.
  apply Forall_cons; split; [intros l st0; apply add_git_segment_once|].
  apply Forall_cons; split; [intros l st0; apply add_svn_segment_once|].
  apply Forall_cons; split; [intros l st0; apply add_hg_segment_once|].
  apply Forall_nil_2.
Qed.
